(** * Runtime validators of the common schemas: enumerations and Wearable

    A shallow embedding of the validators declared in
    [src/dapps/network.ts], [src/dapps/nft-category.ts], the PropsCategory
    module and the Wearable module, over a small model of the JavaScript
    values they receive and of the schema descriptions they are built from. *)

From Stdlib Require Import ZArith String List Bool Lia.
From stdpp Require Import base option list gmap strings.
Local Open Scope string_scope.
Local Open Scope list_scope.
Local Set Warnings "-register-all".

(** ** Values

    The validators take "any value" that a JSON deserialiser can hand them,
    or [undefined].  Objects are finite maps from property names to values:
    these are exactly the own properties of a deserialised object. Numbers
    carry no information any validator of this file inspects beyond being
    numbers and their sign, and are kept as integers. *)

Inductive value : Type :=
  | VUndefined
  | VNull
  | VBool (b : bool)
  | VNum (n : Z)
  | VStr (s : string)
  | VArr (l : list value)
  | VObj (m : gmap string value).

(** ** Completions

    A JavaScript expression either returns or throws.  [Unmodelled] marks the
    few evaluations whose result depends on behaviour that values above do
    not carry (object identity, coercion of strings to numbers or of
    non-strings to property keys); no theorem below concludes from it. *)

Inductive outcome (A : Type) : Type :=
  | Returns (a : A)
  | Throws
  | Unmodelled.
Arguments Returns {A} a.
Arguments Throws {A}.
Arguments Unmodelled {A}.

Definition bind {A B : Type} (m : outcome A) (f : A -> outcome B) : outcome B :=
  match m with
  | Returns a => f a
  | Throws => Throws
  | Unmodelled => Unmodelled
  end.

Notation "'do' x <- m ; k" := (bind m (fun x => k))
  (at level 10, x name, m at level 100, k at level 200,
   format "'[v' 'do'  x  <-  m ; '/' k ']'").

(** [v.k] for the property names this file reads ([i18n], [rarity],
    [collectionAddress], [merkleProof], [hashingKeys], [proof], [code],
    [length]).  Reading a property of [undefined] or [null] is a TypeError;
    an object answers with its own property or [undefined]; [length] is the
    only one of these names that arrays and strings define. *)
Definition get (v : value) (k : string) : outcome value :=
  match v with
  | VUndefined | VNull => Throws
  | VObj m => Returns (default VUndefined (m !! k))
  | VArr l =>
      if String.eqb k "length" then Returns (VNum (Z.of_nat (length l)))
      else Returns VUndefined
  | VStr s =>
      if String.eqb k "length" then Returns (VNum (Z.of_nat (String.length s)))
      else Returns VUndefined
  | VBool _ | VNum _ => Returns VUndefined
  end.

(** [a === b].  Two objects or arrays are equal only when they are the same
    reference, which a value tree does not record. *)
Definition strict_eq (a b : value) : outcome bool :=
  match a, b with
  | VUndefined, VUndefined => Returns true
  | VNull, VNull => Returns true
  | VBool x, VBool y => Returns (Bool.eqb x y)
  | VNum x, VNum y => Returns (x =? y)%Z
  | VStr x, VStr y => Returns (String.eqb x y)
  | (VArr _ | VObj _), (VArr _ | VObj _) => Unmodelled
  | _, _ => Returns false
  end.

(** [!!v] *)
Definition truthy (v : value) : bool :=
  match v with
  | VUndefined | VNull => false
  | VBool b => b
  | VNum n => negb (n =? 0)%Z
  | VStr s => negb (String.eqb s "")
  | VArr _ | VObj _ => true
  end.

(** [v > 0]: decided without parsing for everything but strings and objects. *)
Definition gt_zero (v : value) : outcome bool :=
  match v with
  | VNum n => Returns (0 <? n)%Z
  | VBool b => Returns b
  | VUndefined | VNull => Returns false
  | VStr _ | VArr _ | VObj _ => Unmodelled
  end.

Fixpoint every_from {A : Type} (f : A -> Z -> outcome bool) (l : list A) (i : Z)
    : outcome bool :=
  match l with
  | [] => Returns true
  | x :: l' =>
      do b <- f x i;
      if b then every_from f l' (i + 1)%Z else Returns false
  end.

(** [v.every(f)]: only arrays have the method; on any other value the
    property is [undefined] or a plain datum, and calling it is a TypeError. *)
Definition every (v : value) (f : value -> Z -> outcome bool) : outcome bool :=
  match v with
  | VArr l => every_from f l 0
  | _ => Throws
  end.

Fixpoint findIndex_from {A : Type} (f : A -> outcome bool) (l : list A) (i : Z)
    : outcome Z :=
  match l with
  | [] => Returns (-1)%Z
  | x :: l' =>
      do b <- f x;
      if b then Returns i else findIndex_from f l' (i + 1)%Z
  end.

(** [v.findIndex(f)] *)
Definition findIndex (v : value) (f : value -> outcome bool) : outcome Z :=
  match v with
  | VArr l => findIndex_from f l 0
  | _ => Throws
  end.

(** [w.hasOwnProperty(key)].  The method is looked up on [w] first: an own
    property of that name hides [Object.prototype.hasOwnProperty], and since
    no deserialised value is a function the call is then a TypeError. *)
Definition hasOwnProperty (w key : value) : outcome bool :=
  match w with
  | VUndefined | VNull => Throws
  | VObj m =>
      match m !! "hasOwnProperty" with
      | Some _ => Throws
      | None =>
          match key with
          | VStr k => Returns (bool_decide (is_Some (m !! k)))
          | _ => Unmodelled
          end
      end
  | _ => Unmodelled
  end.

(** ** Schema descriptions *)

Inductive jstype : Type := TString | TNumber | TBoolean | TArray | TObject.

(** [additionalProperties] is a boolean or a schema for the extra values. *)
Inductive additional (S : Type) : Type :=
  | Allow (b : bool)
  | Each (s : S).
Arguments Allow {S} b.
Arguments Each {S} s.

(** The keywords used by the schemas of this repository.  An absent
    [minLength] or [minItems] is 0, an absent [additionalProperties] is
    [Allow true], an absent [properties] or [required] is empty. *)
Inductive schema : Type :=
  Schema {
    type : jstype;
    nullable : bool;
    enum : option (list string);
    minLength : nat;
    items : option schema;
    minItems : nat;
    properties : list (string * schema);
    required : list string;
    additionalProperties : additional schema
  }.

(** [{ type: 'string' }] and the other literal forms found in the sources. *)
Definition string_schema : schema :=
  Schema TString false None 0 None 0 [] [] (Allow true).
Definition string_enum (values : list string) : schema :=
  Schema TString false (Some values) 0 None 0 [] [] (Allow true).
Definition string_min (n : nat) : schema :=
  Schema TString false None n None 0 [] [] (Allow true).
Definition number_schema : schema :=
  Schema TNumber false None 0 None 0 [] [] (Allow true).
Definition array_schema (its : schema) (minIts : nat) : schema :=
  Schema TArray false None 0 (Some its) minIts [] [] (Allow true).
Definition object_schema (props : list (string * schema)) (req : list string)
    (addl : additional schema) : schema :=
  Schema TObject false None 0 None 0 props req addl.

(** [{ ...s, nullable: b }] *)
Definition with_nullable (b : bool) (s : schema) : schema :=
  Schema (type s) b (enum s) (minLength s) (items s) (minItems s)
         (properties s) (required s) (additionalProperties s).

(** [enum]: the value is one of the listed strings. *)
Definition enum_ok (en : option (list string)) (v : value) : bool :=
  match en with
  | None => true
  | Some l => match v with VStr x => existsb (String.eqb x) l | _ => false end
  end.

(** One property [k: x] of an object against [properties] and
    [additionalProperties].  [props] is read first match first, so that
    [explicit ++ spread] is the object literal [{ ...spread, explicit }]. *)
Definition check_property (chk : schema -> value -> bool)
    (props : list (string * schema)) (addl : additional schema)
    (k : string) (x : value) : bool :=
  (fix look (ps : list (string * schema)) : bool :=
     match ps with
     | [] => match addl with Allow b => b | Each sa => chk sa x end
     | (k', sk) :: ps' =>
         if String.eqb k k'
         then match x with VUndefined => true | _ => chk sk x end
         else look ps'
     end) props.

Definition present (m : gmap string value) (k : string) : bool :=
  match m !! k with
  | None | Some VUndefined => false
  | Some _ => true
  end.

(** Modelled from the spec: [generateValidator] of [src/validation] is not among
    the sources.  The spec calls it the validator factory that "takes a schema
    description and returns a predicate function that checks an arbitrary
    value against it"; [conforms] is that check for the keywords above, with
    their JSON-Schema meaning: the [type] must match ([null] only when
    [nullable]) and every other keyword constrains the values of the type it
    speaks about.  Property names inherited from [Object.prototype] are not
    distinguished; no schema of this repository names one. *)
Fixpoint conforms (s : schema) (v : value) {struct s} : bool :=
  match s with
  | Schema t nul en minLen its minIts props req addl =>
      match v with
      | VUndefined => false
      | VNull => nul && enum_ok en v
      | VBool _ => match t with TBoolean => enum_ok en v | _ => false end
      | VNum _ => match t with TNumber => enum_ok en v | _ => false end
      | VStr x =>
          match t with
          | TString => enum_ok en v && (minLen <=? String.length x)%nat
          | _ => false
          end
      | VArr l =>
          match t with
          | TArray =>
              enum_ok en v && (minIts <=? length l)%nat &&
              match its with
              | Some si => forallb (conforms si) l
              | None => true
              end
          | _ => false
          end
      | VObj m =>
          match t with
          | TObject =>
              enum_ok en v &&
              forallb (present m) req &&
              forallb (fun kx => check_property conforms props addl kx.1 kx.2)
                      (map_to_list m)
          | _ => false
          end
      end
  end.

(** Modelled from the spec: the validator factory, absent from the sources
    like [conforms] above, which is the predicate it returns. *)
Definition generateValidator (s : schema) : value -> bool := conforms s.

(** ** Enumeration modules *)

Module Network.
(** [Object.values(Network)] *)
Definition values : list string := ["ETHEREUM"; "MATIC"; "BSC"; "TEST"].
Definition schema : schema := string_enum values.
Definition validate : value -> bool := generateValidator schema.
End Network.

Module NFTCategory.
Definition values : list string :=
  ["parcel"; "estate"; "wearable"; "props"; "ens"; "emote"].
Definition schema : schema := string_enum values.
Definition validate : value -> bool := generateValidator schema.
End NFTCategory.

Module PropsCategory.
Definition values : list string := ["diamond"; "box"; "fragments"; "vibranium"].
Definition schema : schema := string_enum values.
Definition validate : value -> bool := generateValidator schema.
End PropsCategory.

(** A value is a member of an enumeration when it is one of its strings. *)
Definition member (values : list string) (v : value) : Prop :=
  ∃ s, v = VStr s ∧ s ∈ values.

(** ** The Wearable module *)

(** The schemas the Wearable file imports from modules that are not among the
    sources ([Rarity], [WearableCategory], [I18N], [WearableRepresentation],
    [Metrics], [MerkleProof] and the [displayableProperties] it spreads).
    Everything below is stated for arbitrary ones. *)
Class Imports : Type := {
  Rarity_schema : schema;
  WearableCategory_schema : schema;
  I18N_schema : schema;
  WearableRepresentation_schema : schema;
  Metrics_schema : schema;
  MerkleProof_schema : schema;
  displayableProperties : list (string * schema)
}.

Module Rarity.
Definition validate `{Imports} : value -> bool := generateValidator Rarity_schema.
End Rarity.

Module MerkleProof.
Definition validate `{Imports} : value -> bool :=
  generateValidator MerkleProof_schema.
End MerkleProof.

Section Variants.
Context `{Imports}.

(** The source reads [wearable.merkleProof] anew at each use; reads have no
    effect, so it is read once here. *)
Definition validateThirdParty (wearable : value) : outcome bool :=
  do merkleProof <- get wearable "merkleProof";
  if negb (MerkleProof.validate merkleProof) then Returns false else
  do hashingKeys <- get merkleProof "hashingKeys";
  do len <- get hashingKeys "length";
  do isEmpty <- strict_eq len (VNum 0);
  if isEmpty then Returns false else
  do containsAllKeys <-
    every hashingKeys (fun key _ => hasOwnProperty wearable key);
  do proof_ <- get merkleProof "proof";
  do proofLen <- get proof_ "length";
  do proofIsNotEmpty <- gt_zero proofLen;
  Returns (containsAllKeys && proofIsNotEmpty).

Definition validateStandardWearable (rarity collectionAddress : value) : bool :=
  Rarity.validate rarity && truthy collectionAddress.

Definition isStandard (wearable : value) : outcome bool :=
  do rarity <- get wearable "rarity";
  do collectionAddress <- get wearable "collectionAddress";
  Returns (validateStandardWearable rarity collectionAddress).

Definition isThirdParty (wearable : value) : outcome bool :=
  validateThirdParty wearable.
End Variants.

Module Wearable.
Section Namespace.
Context `{Imports}.

(** The properties written out in the schema literal; they come after the
    spread and so take precedence over it. *)
Definition own_properties : list (string * schema) :=
  [ ("id", string_schema);
    ("description", string_schema);
    ("collectionAddress", with_nullable true string_schema);
    ("rarity", with_nullable true Rarity_schema);
    ("name", string_schema);
    ("i18n", array_schema I18N_schema 1);
    ("data",
      object_schema
        [ ("replaces", array_schema WearableCategory_schema 0);
          ("hides", array_schema WearableCategory_schema 0);
          ("tags", array_schema (string_min 1) 0);
          ("representations", array_schema WearableRepresentation_schema 1);
          ("category", WearableCategory_schema) ]
        ["replaces"; "hides"; "tags"; "representations"; "category"]
        (Allow false));
    ("thumbnail", string_schema);
    ("image", string_schema);
    ("metrics", with_nullable true Metrics_schema);
    ("merkleProof", with_nullable true MerkleProof_schema);
    ("content", with_nullable true (object_schema [] [] (Each string_schema))) ].

Definition schema : schema :=
  object_schema
    (own_properties ++ displayableProperties)
    ["id"; "description"; "name"; "data"; "thumbnail"; "image"; "i18n"]
    (Allow true).

Definition schemaValidator : value -> bool := generateValidator schema.

Definition XOR (b1 b2 : bool) : bool := (b1 && negb b2) || (b2 && negb b1).

(** Returns true only if there are no entries with the same locale *)
Definition validateDuplicatedLocales (i18ns : value) : outcome bool :=
  every i18ns (fun entry index =>
    do code <- get entry "code";
    do found <- findIndex i18ns (fun i18n =>
                  do c <- get i18n "code"; strict_eq c code);
    Returns (found =? index)%Z).

Definition validate (wearable : value) : outcome bool :=
  if schemaValidator wearable then
    do i18n <- get wearable "i18n";
    do uniqueLocales <- validateDuplicatedLocales i18n;
    if uniqueLocales then
      do rarity <- get wearable "rarity";
      do collectionAddress <- get wearable "collectionAddress";
      let standard := validateStandardWearable rarity collectionAddress in
      do thirdParty <- validateThirdParty wearable;
      Returns (XOR standard thirdParty)
    else Returns false
  else Returns false.
End Namespace.
End Wearable.

(** ** What the theorems ask of the imported schemas *)

(** The schema [properties] gives to [k]: the first entry of that name. *)
Fixpoint first_match (k : string) (ps : list (string * schema)) : option schema :=
  match ps with
  | [] => None
  | (k', sk) :: ps' => if String.eqb k k' then Some sk else first_match k ps'
  end.

(** [s] accepts only objects that carry property [k], and [ok] holds of the
    schema it applies to [k]. *)
Definition pins (s : schema) (k : string) (ok : schema -> bool) : bool :=
  match type s with TObject => true | _ => false end &&
  negb (nullable s) &&
  existsb (String.eqb k) (required s) &&
  match first_match k (properties s) with Some sk => ok sk | None => false end.

Definition only_strings (s : schema) : bool :=
  match type s with TString => true | _ => false end && negb (nullable s).

Definition only_arrays (s : schema) : bool :=
  match type s with TArray => true | _ => false end && negb (nullable s).

Definition only_arrays_of (ok : schema -> bool) (s : schema) : bool :=
  only_arrays s && match items s with Some si => ok si | None => false end.

(** Every i18n entry is an object whose [code] is a string. *)
Definition locale_codes_are_strings `{Imports} : bool :=
  pins I18N_schema "code" only_strings.

(** A Merkle proof is an object whose [hashingKeys] is an array of strings and
    whose [proof] is an array. *)
Definition merkle_lists_are_arrays `{Imports} : bool :=
  pins MerkleProof_schema "hashingKeys" (only_arrays_of only_strings) &&
  pins MerkleProof_schema "proof" only_arrays.

(** ** A concrete set of imports and some wearables *)

Module Sample.
(** Modelled from the spec: the imported modules are not among the sources.
    The spec describes enumerations as closed sets of string constants,
    i18n entries as texts keyed by a locale code, and a Merkle proof as a
    sequence of hash values plus named keys; the instance below gives each
    import that shape (the enumeration constants are stand-ins) and serves
    only to run the theorems on concrete wearables. *)
#[export] Instance imports : Imports := {|
  Rarity_schema :=
    string_enum ["unique"; "mythic"; "legendary"; "epic"; "rare"; "uncommon"; "common"];
  WearableCategory_schema :=
    string_enum ["eyes"; "hair"; "mouth"; "upper_body"; "lower_body"; "feet"; "hat"];
  I18N_schema :=
    object_schema [("code", string_schema); ("text", string_schema)]
                  ["code"; "text"] (Allow false);
  WearableRepresentation_schema := object_schema [] [] (Allow true);
  Metrics_schema := object_schema [] [] (Allow true);
  MerkleProof_schema :=
    object_schema
      [("proof", array_schema string_schema 0);
       ("hashingKeys", array_schema string_schema 0)]
      ["proof"; "hashingKeys"] (Allow true);
  displayableProperties := []
|}.

Definition obj (l : list (string * value)) : value := VObj (list_to_map l).

Definition i18n_entry (code text : string) : value :=
  obj [("code", VStr code); ("text", VStr text)].

Definition data : value :=
  obj [("replaces", VArr []); ("hides", VArr []); ("tags", VArr [VStr "tag"]);
       ("representations", VArr [obj []]); ("category", VStr "hat")].

(** Fields every wearable has. *)
Definition base : list (string * value) :=
  [("id", VStr "urn:wearable:1"); ("description", VStr "a hat");
   ("name", VStr "Hat"); ("data", data); ("thumbnail", VStr "t.png");
   ("image", VStr "i.png");
   ("i18n", VArr [i18n_entry "en" "Hat"; i18n_entry "es" "Sombrero"])].

Definition standard_fields : list (string * value) :=
  [("rarity", VStr "common"); ("collectionAddress", VStr "0xabc")].

Definition merkleProof (hashingKeys : list string) : value :=
  obj [("proof", VArr [VStr "0x01"; VStr "0x02"]);
       ("hashingKeys", VArr (VStr <$> hashingKeys))].

Definition standard : gmap string value := list_to_map (standard_fields ++ base).

Definition thirdParty : gmap string value :=
  list_to_map (("merkleProof", merkleProof ["id"; "name"]) :: base).

(** A standard wearable that also carries a [content] record. *)
Definition standard_with_content : gmap string value :=
  <["content" := obj [("model.glb", VStr "Qm1")]]> standard.

(** A standard wearable whose Merkle proof hashes a [content] it lacks. *)
Definition standard_pending_content : gmap string value :=
  <["merkleProof" := merkleProof ["content"]]> standard.

(** A third-party wearable with one more property, named [hasOwnProperty]. *)
Definition thirdParty_shadowing : gmap string value :=
  <["hasOwnProperty" := VStr "x"]> thirdParty.

(** A standard wearable with a well-formed Merkle proof and, again, a
    property named [hasOwnProperty]. *)
Definition standard_shadowing : gmap string value :=
  <["hasOwnProperty" := VStr "x"]> (<["merkleProof" := merkleProof ["id"]]> standard).

(** The same locale twice. *)
Definition standard_repeated_locale : gmap string value :=
  <["i18n" := VArr [i18n_entry "en" "Hat"; i18n_entry "en" "Cap"]]> standard.
End Sample.

(** ** The claims read on the data *)

(** The own property [k] of an object, [undefined] when it has none. *)
Definition field (m : gmap string value) (k : string) : value :=
  default VUndefined (m !! k).

(** The locale code of an i18n entry, and the codes of a wearable's entries. *)
Definition code_of (entry : value) : value :=
  match entry with VObj e => field e "code" | _ => VUndefined end.

Definition locale_codes (wearable : value) : list value :=
  match wearable with
  | VObj m => match m !! "i18n" with Some (VArr l) => code_of <$> l | _ => [] end
  | _ => []
  end.

(** Position, counted from [i], of the first of [cs] equal to [c]; -1 if none. *)
Fixpoint index_from (c : string) (cs : list string) (i : Z) : Z :=
  match cs with
  | [] => (-1)%Z
  | c' :: cs' => if String.eqb c' c then i else index_from c cs' (i + 1)%Z
  end.

(** Reading [code] off an entry yields the string [c]. *)
Definition coded (entry : value) (c : string) : Prop :=
  get entry "code" = Returns (VStr c).

(** The field types the Wearable type gives [collectionAddress]: a string,
    when there is one. *)
Definition collectionAddress_typed (m : gmap string value) : Prop :=
  match m !! "collectionAddress" with
  | None | Some VUndefined | Some VNull | Some (VStr _) => True
  | Some _ => False
  end.

(** The two checks as conditions on the wearable's own properties. *)
Definition standard_ok `{Imports} (m : gmap string value) : Prop :=
  Rarity.validate (field m "rarity") = true ∧
  ∃ a, m !! "collectionAddress" = Some (VStr a) ∧ a ≠ "".

Definition third_party_ok `{Imports} (m : gmap string value) : Prop :=
  ∃ mp hashingKeys proof_,
    m !! "merkleProof" = Some (VObj mp) ∧
    MerkleProof.validate (VObj mp) = true ∧
    mp !! "hashingKeys" = Some (VArr hashingKeys) ∧ hashingKeys ≠ [] ∧
    (∀ key, key ∈ hashingKeys → ∃ k, key = VStr k ∧ is_Some (m !! k)) ∧
    mp !! "proof" = Some (VArr proof_) ∧ proof_ ≠ [].

(** The two shapes in the words of the data model: which fields a Standard
    and a Third-party wearable has and lacks. *)
Definition spec_standard_shape (m : gmap string value) : Prop :=
  is_Some (m !! "rarity") ∧ is_Some (m !! "collectionAddress") ∧
  m !! "merkleProof" = None ∧ m !! "content" = None.

Definition spec_third_party_shape `{Imports} (m : gmap string value) : Prop :=
  third_party_ok m ∧ m !! "rarity" = None ∧ m !! "collectionAddress" = None.

(** [content] is one of the hashing keys of the wearable's Merkle proof. *)
Definition hashes_content (m : gmap string value) : Prop :=
  ∃ mp hashingKeys,
    m !! "merkleProof" = Some (VObj mp) ∧
    mp !! "hashingKeys" = Some (VArr hashingKeys) ∧
    VStr "content" ∈ hashingKeys.

(** A [content] record: a mapping from strings to strings. *)
Definition content_record (c : gmap string string) : value := VObj (VStr <$> c).

(** The third-party check gets as far as asking the wearable for its hashing
    keys: the Merkle proof passes its validator and lists at least one. *)
Definition engaged `{Imports} (m : gmap string value) : Prop :=
  ∃ mp hashingKeys,
    m !! "merkleProof" = Some (VObj mp) ∧
    MerkleProof.validate (VObj mp) = true ∧
    mp !! "hashingKeys" = Some (VArr hashingKeys) ∧ hashingKeys ≠ [].

(** [k] is one of the hashing keys of the wearable's Merkle proof. *)
Definition hashes_key (m : gmap string value) (k : string) : Prop :=
  ∃ mp hashingKeys,
    m !! "merkleProof" = Some (VObj mp) ∧
    mp !! "hashingKeys" = Some (VArr hashingKeys) ∧
    VStr k ∈ hashingKeys.

(** The properties the Wearable schema says something about. *)
Definition declared `{Imports} (k : string) : Prop :=
  is_Some (first_match k (Wearable.own_properties ++ displayableProperties)).

(** ** Completions and schema conformance *)

#[local] Instance VStr_inj : Inj (=) (=) VStr.
Proof. by intros s1 s2 [=]. Qed.

Lemma bind_returns {A B : Type} (m : outcome A) (f : A → outcome B) (b : B) :
  bind m f = Returns b ↔ ∃ a, m = Returns a ∧ f a = Returns b.
Proof.
  destruct m; simpl; split; try done.
  - intros Hf. by exists a.
  - by intros (a' & [= <-] & Hf).
  - by intros (a' & [=] & _).
  - by intros (a' & [=] & _).
Qed.

Lemma check_property_first_match chk props addl k x :
  check_property chk props addl k x =
    match first_match k props with
    | Some sk => match x with VUndefined => true | _ => chk sk x end
    | None => match addl with Allow b => b | Each sa => chk sa x end
    end.
Proof.
  unfold check_property. induction props as [|[k' sk] ps IH]; simpl; [done|].
  by destruct (String.eqb k k').
Qed.

Lemma first_match_app k ps qs :
  first_match k (ps ++ qs) =
    match first_match k ps with Some sk => Some sk | None => first_match k qs end.
Proof.
  induction ps as [|[k' sk] ps IH]; simpl; [by destruct (first_match k qs)|].
  by destruct (String.eqb k k').
Qed.

Lemma present_spec m k :
  present m k = true ↔ ∃ x, m !! k = Some x ∧ x ≠ VUndefined.
Proof.
  unfold present. destruct (m !! k) as [x|]; [|by split; [|intros (x & [=] & _)]].
  destruct x; split; try done; try (intros _; eexists; split; [reflexivity|done]).
  by intros (x & [= <-] & Hx).
Qed.

Lemma enum_ok_compound en v :
  (∀ s, v ≠ VStr s) → enum_ok en v = true ↔ en = None.
Proof.
  intros Hv. destruct en as [l|]; simpl; [|done].
  destruct v; try done. by destruct (Hv s).
Qed.

Lemma conforms_object s m :
  conforms s (VObj m) = true ↔
    type s = TObject ∧ enum s = None ∧
    (∀ k, k ∈ required s → present m k = true) ∧
    (∀ k x, m !! k = Some x →
       check_property conforms (properties s) (additionalProperties s) k x = true).
Proof.
  destruct s as [t nul en ml its mi props req addl]; simpl.
  destruct t; try (split; [done | by intros ([=] & _)]).
  rewrite !andb_true_iff, !forallb_forall, enum_ok_compound by done.
  split.
  - intros [[Hen Hreq] Hall]. repeat split; [done| |].
    + intros k Hk. apply Hreq. by apply list_elem_of_In.
    + intros k x Hkx. apply (Hall (k, x)).
      apply list_elem_of_In. by apply elem_of_map_to_list.
  - intros (_ & Hen & Hreq & Hall). repeat split; [done| |].
    + intros k Hk. apply Hreq. by apply list_elem_of_In.
    + intros [k x] Hkx. apply Hall.
      by apply elem_of_map_to_list, list_elem_of_In.
Qed.

Lemma conforms_array s l :
  conforms s (VArr l) = true ↔
    type s = TArray ∧ enum s = None ∧ (minItems s ≤ length l)%nat ∧
    (∀ si, items s = Some si → ∀ x, x ∈ l → conforms si x = true).
Proof.
  destruct s as [t nul en ml its mi props req addl]; simpl.
  destruct t; try (split; [done | by intros ([=] & _)]).
  rewrite !andb_true_iff, enum_ok_compound, Nat.leb_le by done.
  split.
  - intros [[Hen Hmin] Hall]. repeat split; [done..|].
    intros si -> x Hx. rewrite forallb_forall in Hall.
    by apply Hall, list_elem_of_In.
  - intros (_ & Hen & Hmin & Hall). repeat split; [done..|].
    destruct its as [si|]; [|done]. apply forallb_forall.
    intros x Hx. by apply (Hall si), list_elem_of_In.
Qed.

Lemma conforms_undefined s : conforms s VUndefined = false.
Proof. by destruct s. Qed.

Lemma conforms_with_nullable b s v :
  v ≠ VNull → conforms (with_nullable b s) v = conforms s v.
Proof. by destruct s, v. Qed.

Lemma only_strings_conforms s v :
  only_strings s = true → conforms s v = true → ∃ c, v = VStr c.
Proof.
  destruct s as [t nul en ml its mi props req addl]; unfold only_strings; simpl.
  destruct t, nul, v; try done. by exists s.
Qed.

Lemma only_arrays_conforms s v :
  only_arrays s = true → conforms s v = true → ∃ l, v = VArr l.
Proof.
  destruct s as [t nul en ml its mi props req addl]; unfold only_arrays; simpl.
  destruct t, nul, v; try done. by exists l.
Qed.

Lemma only_arrays_of_conforms ok s v :
  only_arrays_of ok s = true → conforms s v = true →
  ∃ l si, v = VArr l ∧ ok si = true ∧ ∀ x, x ∈ l → conforms si x = true.
Proof.
  unfold only_arrays_of. rewrite andb_true_iff. intros [Harr Hit] Hv.
  destruct (only_arrays_conforms _ _ Harr Hv) as [l ->].
  apply conforms_array in Hv as (_ & _ & _ & Hall).
  destruct (items s) as [si|]; [|done].
  exists l, si. repeat split; [done|]. by apply Hall.
Qed.

Lemma pins_conforms s k ok v :
  pins s k ok = true → conforms s v = true →
  ∃ m x sk, v = VObj m ∧ m !! k = Some x ∧ ok sk = true ∧ conforms sk x = true.
Proof.
  unfold pins. rewrite !andb_true_iff. intros [[[Ht Hnul] Hreq] Hok] Hv.
  assert (∃ m, v = VObj m) as [m ->].
  { destruct s as [t nul en ml its mi props req addl]; simpl in *.
    destruct t, nul, v; try done. by exists m. }
  apply conforms_object in Hv as (_ & _ & Hpres & Hall).
  apply existsb_exists in Hreq as (k' & Hin & Heq).
  apply String.eqb_eq in Heq. subst k'. apply list_elem_of_In in Hin.
  apply Hpres, present_spec in Hin as (x & Hx & Hdef).
  specialize (Hall k x Hx). rewrite check_property_first_match in Hall.
  destruct (first_match k (properties s)) as [sk|]; [|done].
  exists m, x, sk. repeat split; [done..|]. by destruct x.
Qed.

(** ** Repeated locales *)

Lemma index_from_absent c cs i : c ∉ cs → index_from c cs i = (-1)%Z.
Proof.
  revert i. induction cs as [|c' cs IH]; intros i Hc; simpl; [done|].
  apply not_elem_of_cons in Hc as [Hne Hc].
  destruct (String.eqb_spec c' c); [congruence|]. by apply IH.
Qed.

Lemma index_from_first c (pre post : list string) i :
  c ∉ pre → index_from c (pre ++ c :: post) i = (i + Z.of_nat (length pre))%Z.
Proof.
  revert i. induction pre as [|c' pre IH]; intros i Hc; simpl.
  - rewrite String.eqb_refl. lia.
  - apply not_elem_of_cons in Hc as [Hne Hc].
    destruct (String.eqb_spec c' c); [congruence|]. rewrite IH by done. lia.
Qed.

Lemma index_from_here c (pre post : list string) :
  (index_from c (pre ++ c :: post) 0 =? Z.of_nat (length pre))%Z = true ↔ c ∉ pre.
Proof.
  rewrite Z.eqb_eq. split.
  - intros Hi Hin. apply list_elem_of_split_l in Hin as (p1 & p2 & -> & Hp1).
    rewrite <- app_assoc in Hi. simpl in Hi.
    rewrite index_from_first in Hi by done.
    rewrite length_app in Hi. simpl in Hi. lia.
  - intros Hc. rewrite index_from_first by done. lia.
Qed.

Lemma findIndex_from_codes c0 l cs i :
  Forall2 coded l cs →
  findIndex_from (fun i18n => do c <- get i18n "code"; strict_eq c (VStr c0)) l i
    = Returns (index_from c0 cs i).
Proof.
  intros Hl. revert i. induction Hl as [|x c l cs Hx Hl IH]; intros i; simpl; [done|].
  rewrite Hx. simpl. destruct (String.eqb c c0); [done|]. apply IH.
Qed.

Lemma every_from_codes (i18ns pre post : list value) (cpre cpost : list string) :
  i18ns = pre ++ post → Forall2 coded pre cpre → Forall2 coded post cpost →
  ∃ b,
    every_from (fun entry index =>
        do code <- get entry "code";
        do found <- findIndex (VArr i18ns) (fun i18n =>
                      do c <- get i18n "code"; strict_eq c code);
        Returns (found =? index)%Z)
      post (Z.of_nat (length pre)) = Returns b ∧
    (b = true ↔ NoDup cpost ∧ ∀ c, c ∈ cpost → c ∉ cpre).
Proof.
  intros Hl Hpre Hpost. revert pre cpre Hl Hpre.
  induction Hpost as [|x c post cpost Hx Hpost IH]; intros pre cpre Hl Hpre.
  - exists true. simpl. split; [done|]. split; [|done].
    intros _. split; [constructor | by intros c Hc; apply elem_of_nil in Hc].
  - simpl. rewrite Hx. simpl.
    rewrite (findIndex_from_codes c i18ns (cpre ++ c :: cpost)) by
      (subst i18ns; apply Forall2_app; [done | by constructor]).
    simpl. pose proof (Forall2_length _ _ _ Hpre) as Hlen.
    destruct (index_from c _ 0 =? _)%Z eqn:Hidx.
    + rewrite Hlen in Hidx. apply index_from_here in Hidx.
      destruct (IH (pre ++ [x]) (cpre ++ [c])) as (b & Hb & Hiff).
      { by rewrite <- app_assoc. }
      { apply Forall2_app; [done | by repeat constructor]. }
      exists b. split.
      * rewrite length_app, Nat2Z.inj_add in Hb. exact Hb.
      * rewrite Hiff, NoDup_cons. split.
        -- intros [Hnd Hdis]. repeat split; [|done|].
           ++ intros Hc. apply (Hdis c Hc), elem_of_app. right. by left.
           ++ intros c' [->|Hc']%elem_of_cons; [done|].
              intros Hin. apply (Hdis c' Hc'), elem_of_app. by left.
        -- intros [[Hnc Hnd] Hdis]. split; [done|].
           intros c' Hc' [Hin| ->%list_elem_of_singleton]%elem_of_app; [|done].
           apply (Hdis c'); [by right | done].
    + exists false. split; [done|]. split; [done|]. intros [_ Hdis].
      assert (c ∉ cpre) as Hc by (apply Hdis; by left).
      apply (index_from_here c cpre cpost) in Hc. congruence.
Qed.

Section Locales.
Context `{Imports}.

Lemma validateDuplicatedLocales_codes l cs :
  Forall2 coded l cs →
  ∃ b, Wearable.validateDuplicatedLocales (VArr l) = Returns b ∧
       (b = true ↔ NoDup cs).
Proof.
  intros Hl.
  destruct (every_from_codes l [] l [] cs eq_refl (List.Forall2_nil _) Hl)
    as (b & Hb & Hiff).
  exists b. split; [exact Hb|]. rewrite Hiff. split; [by intros [? _]|].
  intros Hnd. split; [done|]. intros c _ Hc. by apply elem_of_nil in Hc.
Qed.

Lemma i18n_entries_coded l :
  locale_codes_are_strings = true →
  (∀ x, x ∈ l → conforms I18N_schema x = true) →
  ∃ cs, Forall2 coded l cs ∧ code_of <$> l = VStr <$> cs.
Proof.
  intros Hpin. induction l as [|x l IH]; intros Hall.
  - exists []. by split; [constructor|].
  - destruct IH as (cs & Hcs & Hmap).
    { intros y Hy. apply Hall. by right. }
    destruct (pins_conforms _ _ _ x Hpin) as (e & y & sk & -> & Hy & Hsk & Hc).
    { apply Hall. by left. }
    destruct (only_strings_conforms _ _ Hsk Hc) as [c ->].
    exists (c :: cs). split.
    + constructor; [|done]. unfold coded. simpl. by rewrite Hy.
    + simpl. unfold field. rewrite Hy. simpl. by f_equal.
Qed.
End Locales.

(** ** The Wearable schema *)

Section Schema.
Context `{Imports}.

Lemma schemaValidator_object v :
  Wearable.schemaValidator v = true → ∃ m, v = VObj m.
Proof. destruct v; try done. by exists m. Qed.

Lemma schemaValidator_spec m :
  Wearable.schemaValidator (VObj m) = true ↔
    (∀ k, k ∈ required Wearable.schema → present m k = true) ∧
    (∀ k x, m !! k = Some x →
       check_property conforms (Wearable.own_properties ++ displayableProperties)
                      (Allow true) k x = true).
Proof.
  unfold Wearable.schemaValidator, generateValidator.
  rewrite conforms_object. simpl.
  split; [by intros (_ & _ & ? & ?) | by intros [? ?]].
Qed.

(** A property the schema literal names conforms to the schema given there. *)
Lemma schemaValidator_own m k x sk :
  Wearable.schemaValidator (VObj m) = true →
  m !! k = Some x → first_match k Wearable.own_properties = Some sk →
  x = VUndefined ∨ conforms sk x = true.
Proof.
  intros [_ Hall]%schemaValidator_spec Hx Hsk.
  specialize (Hall k x Hx).
  rewrite check_property_first_match, first_match_app, Hsk in Hall.
  destruct x; auto.
Qed.

Lemma schemaValidator_required m k :
  Wearable.schemaValidator (VObj m) = true →
  k ∈ ["id"; "description"; "name"; "data"; "thumbnail"; "image"; "i18n"] →
  ∃ x, m !! k = Some x ∧ x ≠ VUndefined.
Proof.
  intros [Hreq _]%schemaValidator_spec Hk. by apply present_spec, Hreq.
Qed.

Lemma schemaValidator_i18n m :
  Wearable.schemaValidator (VObj m) = true →
  ∃ l, m !! "i18n" = Some (VArr l) ∧ l ≠ [] ∧
       ∀ x, x ∈ l → conforms I18N_schema x = true.
Proof.
  intros Hm.
  destruct (schemaValidator_required m "i18n" Hm) as (x & Hx & Hdef);
    [set_solver|].
  destruct (schemaValidator_own m "i18n" x _ Hm Hx eq_refl) as [?|Hc]; [done|].
  destruct x; try done.
  apply conforms_array in Hc as (_ & _ & Hmin & Hall). simpl in *.
  exists l. repeat split; [done| |by apply Hall].
  intros ->. simpl in Hmin. lia.
Qed.

Lemma schemaValidator_collectionAddress m :
  Wearable.schemaValidator (VObj m) = true → collectionAddress_typed m.
Proof.
  intros Hm. unfold collectionAddress_typed.
  destruct (m !! "collectionAddress") as [x|] eqn:Hx; [|done].
  destruct (schemaValidator_own m _ x _ Hm Hx eq_refl) as [->|Hc]; [done|].
  by destruct x.
Qed.

Lemma schemaValidator_data m :
  Wearable.schemaValidator (VObj m) = true →
  ∃ d r, m !! "data" = Some (VObj d) ∧
         d !! "representations" = Some (VArr r) ∧ r ≠ [] ∧
         ∀ k, is_Some (d !! k) →
              k ∈ ["replaces"; "hides"; "tags"; "representations"; "category"].
Proof.
  intros Hm.
  destruct (schemaValidator_required m "data" Hm) as (x & Hx & Hdef);
    [set_solver|].
  destruct (schemaValidator_own m "data" x _ Hm Hx eq_refl) as [?|Hc]; [done|].
  destruct x as [| | | | | |d]; try done.
  apply conforms_object in Hc as (_ & _ & Hreq & Hall). simpl in Hreq.
  destruct (proj1 (present_spec d "representations")) as (y & Hy & Hydef);
    [apply Hreq; set_solver|].
  pose proof (Hall _ _ Hy) as Hc. rewrite check_property_first_match in Hc.
  simpl in Hc. destruct y as [| | | | |r|]; try done.
  exists d, r. repeat split; [done..| |].
  - by intros ->.
  - intros k [z Hz]. specialize (Hall k z Hz).
    rewrite check_property_first_match in Hall. simpl in Hall.
    repeat match type of Hall with
           | context [String.eqb k ?s] =>
               destruct (String.eqb_spec k s) as [->|_]; [set_solver|]
           end.
    done.
Qed.
End Schema.

(** ** Wearable.validate *)

Section Validate.
Context `{Imports}.

Lemma XOR_true b1 b2 :
  Wearable.XOR b1 b2 = true ↔ (b1 = true ∧ b2 = false) ∨ (b1 = false ∧ b2 = true).
Proof. unfold Wearable.XOR. destruct b1, b2; simpl; intuition congruence. Qed.

Lemma XOR_same b : Wearable.XOR b b = false.
Proof. by destruct b. Qed.

Lemma isStandard_object m :
  isStandard (VObj m) =
    Returns (validateStandardWearable (field m "rarity") (field m "collectionAddress")).
Proof. reflexivity. Qed.

(** [validate] on an object, with the property reads carried out. *)
Lemma validate_object m :
  Wearable.validate (VObj m) =
    if Wearable.schemaValidator (VObj m) then
      do uniqueLocales <- Wearable.validateDuplicatedLocales (field m "i18n");
      if uniqueLocales then
        do thirdParty <- validateThirdParty (VObj m);
        Returns (Wearable.XOR
                   (validateStandardWearable (field m "rarity")
                                             (field m "collectionAddress"))
                   thirdParty)
      else Returns false
    else Returns false.
Proof. reflexivity. Qed.

Lemma validate_rejects_schema v :
  Wearable.schemaValidator v = false → Wearable.validate v = Returns false.
Proof. intros Hv. unfold Wearable.validate. by rewrite Hv. Qed.

Lemma validate_true v :
  Wearable.validate v = Returns true ↔
    ∃ m, v = VObj m ∧ Wearable.schemaValidator v = true ∧
         Wearable.validateDuplicatedLocales (field m "i18n") = Returns true ∧
         ∃ b, validateThirdParty v = Returns b ∧
              Wearable.XOR (validateStandardWearable (field m "rarity")
                              (field m "collectionAddress")) b = true.
Proof.
  split.
  - intros Hv. destruct (Wearable.schemaValidator v) eqn:Hs;
      [|by rewrite validate_rejects_schema in Hv].
    destruct (schemaValidator_object v Hs) as [m ->]. exists m.
    rewrite validate_object, Hs in Hv.
    apply bind_returns in Hv as ([] & Hdup & Hv); [|done].
    apply bind_returns in Hv as (b & Htp & [= Hx]). eauto 10.
  - intros (m & -> & Hs & Hdup & b & Htp & Hx).
    rewrite validate_object, Hs, Hdup. simpl. rewrite Htp. simpl. by rewrite Hx.
Qed.

(** Once the schema holds, the locale check returns, and returns true exactly
    when the codes are pairwise distinct. *)
Lemma validate_locales v :
  locale_codes_are_strings = true → Wearable.schemaValidator v = true →
  ∃ m b, v = VObj m ∧
         Wearable.validateDuplicatedLocales (field m "i18n") = Returns b ∧
         (b = true ↔ NoDup (locale_codes v)).
Proof.
  intros Hcodes Hs. destruct (schemaValidator_object v Hs) as [m ->].
  destruct (schemaValidator_i18n m Hs) as (l & Hl & _ & Hall).
  destruct (i18n_entries_coded l Hcodes Hall) as (cs & Hcs & Hmap).
  destruct (validateDuplicatedLocales_codes l cs Hcs) as (b & Hb & Hiff).
  exists m, b. unfold field. simpl. rewrite Hl. simpl.
  split; [done|]. split; [done|].
  rewrite Hiff, Hmap. symmetry. apply (NoDup_fmap VStr).
Qed.

Lemma validateStandardWearable_typed m :
  collectionAddress_typed m →
  validateStandardWearable (field m "rarity") (field m "collectionAddress") = true
    ↔ standard_ok m.
Proof.
  unfold collectionAddress_typed, standard_ok, validateStandardWearable, field.
  rewrite andb_true_iff. intros Hty.
  destruct (m !! "collectionAddress") as [[| | | |a| |]|]; simpl in *;
    try done; try (split; [by intros [_ [=]] | by intros [_ (a' & [=] & _)]]).
  split.
  - intros [Hr Ha]. split; [done|]. exists a. split; [done|].
    intros ->. done.
  - intros [Hr (a' & [= <-] & Ha)]. split; [done|].
    by destruct (String.eqb_spec a "").
Qed.
End Validate.

(** Where both variant checks return: Wearable.validate returns true exactly
    when the value passes the schema validator, no two of its i18n entries
    have the same locale code, and one of the standard and third-party checks
    returns true while the other returns false; whenever the two checks
    return the same answer, both true or both false, it returns false.
    Nothing is said here of a check that throws. *)
Theorem validate_true_iff `{Imports} (v : value) :
  locale_codes_are_strings = true →
  (Wearable.validate v = Returns true ↔
     Wearable.schemaValidator v = true ∧ NoDup (locale_codes v) ∧
     ((isStandard v = Returns true ∧ isThirdParty v = Returns false) ∨
      (isStandard v = Returns false ∧ isThirdParty v = Returns true))) ∧
  (∀ b, isStandard v = Returns b → isThirdParty v = Returns b →
        Wearable.validate v = Returns false).
Proof.
  intros Hcodes. split; [split|].
  - intros (m & -> & Hs & Hdup & b & Htp & Hx)%validate_true.
    destruct (validate_locales _ Hcodes Hs) as (m' & b' & [= <-] & Hb' & Hiff).
    rewrite Hdup in Hb'. injection Hb' as <-.
    split; [done|]. split; [by apply Hiff|].
    unfold isThirdParty. rewrite isStandard_object, Htp.
    apply XOR_true in Hx as [[-> ->]|[-> ->]]; auto.
  - intros (Hs & Hnd & Hx).
    destruct (validate_locales _ Hcodes Hs) as (m & b' & -> & Hb' & Hiff).
    apply Hiff in Hnd as ->. apply validate_true. exists m.
    split; [done|]. split; [done|]. split; [done|].
    unfold isThirdParty in Hx. rewrite isStandard_object in Hx.
    destruct Hx as [[[= Hstd] Htp]|[[= Hstd] Htp]];
      eexists; (split; [exact Htp|]); by rewrite Hstd.
  - intros b Hstd Htp.
    destruct (Wearable.schemaValidator v) eqn:Hs;
      [|by apply validate_rejects_schema].
    destruct (validate_locales _ Hcodes Hs) as (m & b' & -> & Hb' & _).
    rewrite isStandard_object in Hstd.
    injection Hstd as Hstd. unfold isThirdParty in Htp.
    rewrite validate_object, Hs, Hb'. simpl. destruct b'; [|done].
    rewrite Htp. simpl. by rewrite Hstd, XOR_same.
Qed.

(** ** The third-party check *)

Lemma every_from_ext {A : Type} (f g : A → Z → outcome bool) (l : list A) (i : Z) :
  (∀ x j, x ∈ l → f x j = g x j) → every_from f l i = every_from g l i.
Proof.
  revert i. induction l as [|x l IH]; intros i Hfg; simpl; [done|].
  rewrite (Hfg x i) by (by left). destruct (g x i) as [[]| |]; simpl; try done.
  apply IH. intros y j Hy. apply Hfg. by right.
Qed.

Lemma every_from_cons {A : Type} (f : A → Z → outcome bool) x l i :
  every_from f (x :: l) i =
    do b <- f x i; if b then every_from f l (i + 1)%Z else Returns false.
Proof. reflexivity. Qed.

Lemma hasOwnProperty_visible m k :
  m !! "hasOwnProperty" = None →
  hasOwnProperty (VObj m) (VStr k) = Returns (bool_decide (is_Some (m !! k))).
Proof. intros Hown. unfold hasOwnProperty. by rewrite Hown. Qed.

Section ThirdParty.
Context `{Imports}.

(** With [hasOwnProperty] not hidden, asking for string keys returns. *)
Lemma every_hasOwnProperty m (hashingKeys : list value) i :
  m !! "hasOwnProperty" = None →
  (∀ key, key ∈ hashingKeys → ∃ k, key = VStr k) →
  ∃ b, every_from (fun key _ => hasOwnProperty (VObj m) key) hashingKeys i
         = Returns b ∧
       (b = true ↔
          ∀ key, key ∈ hashingKeys → ∃ k, key = VStr k ∧ is_Some (m !! k)).
Proof.
  intros Hown. revert i.
  induction hashingKeys as [|key keys IH]; intros i Hstr.
  - exists true. split; [done|]. split; [|done].
    intros _ key Hkey. by apply elem_of_nil in Hkey.
  - destruct (Hstr key) as [k ->]; [by left|].
    rewrite every_from_cons, hasOwnProperty_visible by done. cbn [bind].
    destruct (IH (i + 1)%Z) as (b & Hb & Hiff).
    { intros key Hkey. apply Hstr. by right. }
    case_bool_decide as Hk.
    + exists b. split; [done|]. rewrite Hiff. split.
      * intros Hall key [->|Hkey]%elem_of_cons; [by exists k | by apply Hall].
      * intros Hall key Hkey. apply Hall. by right.
    + exists false. split; [done|]. split; [done|]. intros Hall.
      destruct (Hall (VStr k)) as (k' & [= <-] & Hsome); [by left | done].
Qed.

(** The first call already fails when [hasOwnProperty] is hidden. *)
Lemma every_hasOwnProperty_own m (hashingKeys : list value) i b :
  every_from (fun key _ => hasOwnProperty (VObj m) key) hashingKeys i = Returns b →
  hashingKeys ≠ [] → m !! "hasOwnProperty" = None.
Proof.
  destruct hashingKeys as [|key keys]; [done|]. simpl.
  by destruct (m !! "hasOwnProperty").
Qed.

Lemma merkle_shape x :
  merkle_lists_are_arrays = true → MerkleProof.validate x = true →
  ∃ mp hashingKeys proof_,
    x = VObj mp ∧ mp !! "hashingKeys" = Some (VArr hashingKeys) ∧
    (∀ key, key ∈ hashingKeys → ∃ k, key = VStr k) ∧
    mp !! "proof" = Some (VArr proof_).
Proof.
  unfold merkle_lists_are_arrays, MerkleProof.validate, generateValidator.
  rewrite andb_true_iff. intros [Hk Hp] Hx.
  destruct (pins_conforms _ _ _ x Hk Hx) as (mp & y & sk & -> & Hy & Hsk & Hc).
  destruct (pins_conforms _ _ _ _ Hp Hx) as (mp' & z & sz & [= <-] & Hz & Hsz & Hcz).
  destruct (only_arrays_of_conforms _ _ _ Hsk Hc) as (hk & si & -> & Hsi & Hall).
  destruct (only_arrays_conforms _ _ Hsz Hcz) as [pr ->].
  exists mp, hk, pr. repeat split; [done| |done].
  intros key Hkey. by apply (only_strings_conforms si), Hall.
Qed.

Lemma validateThirdParty_invalid m :
  MerkleProof.validate (field m "merkleProof") = false →
  validateThirdParty (VObj m) = Returns false.
Proof. intros Hx. unfold validateThirdParty. simpl. fold (field m "merkleProof"). by rewrite Hx. Qed.

(** The check on a wearable whose Merkle proof has the two lists. *)
Lemma validateThirdParty_merkle m mp (hashingKeys proof_ : list value) :
  m !! "merkleProof" = Some (VObj mp) →
  MerkleProof.validate (VObj mp) = true →
  mp !! "hashingKeys" = Some (VArr hashingKeys) →
  mp !! "proof" = Some (VArr proof_) →
  validateThirdParty (VObj m) =
    match hashingKeys with
    | [] => Returns false
    | _ =>
        do containsAllKeys <-
          every_from (fun key _ => hasOwnProperty (VObj m) key) hashingKeys 0;
        Returns (containsAllKeys && (0 <? Z.of_nat (length proof_))%Z)
    end.
Proof.
  intros Hm Hv Hk Hp. unfold validateThirdParty. simpl.
  rewrite Hm. simpl. rewrite Hv. simpl. rewrite Hk, Hp. simpl.
  by destruct hashingKeys.
Qed.

Lemma validateThirdParty_decides m b :
  merkle_lists_are_arrays = true →
  validateThirdParty (VObj m) = Returns b → (b = true ↔ third_party_ok m).
Proof.
  intros Harr Hb.
  destruct (MerkleProof.validate (field m "merkleProof")) eqn:Hv.
  - destruct (merkle_shape _ Harr Hv) as (mp & hk & pr & Hx & Hk & Hstr & Hp).
    assert (m !! "merkleProof" = Some (VObj mp)) as Hm.
    { unfold field in Hx. by destruct (m !! "merkleProof"); simplify_eq/=. }
    rewrite Hx in Hv.
    rewrite (validateThirdParty_merkle m mp hk pr Hm Hv Hk Hp) in Hb.
    assert (third_party_ok m ↔
              hk ≠ [] ∧ pr ≠ [] ∧
              ∀ key, key ∈ hk → ∃ k, key = VStr k ∧ is_Some (m !! k)) as ->.
    { unfold third_party_ok. split.
      - intros (mp' & hk' & pr' & Hm' & _ & Hk' & Hne & Hall & Hp' & Hpne).
        by simplify_eq.
      - intros (Hne & Hpne & Hall). by exists mp, hk, pr. }
    destruct hk as [|key keys]; [by split; [simplify_eq | intros [? _]]|].
    apply bind_returns in Hb as (c & Hc & [= <-]).
    pose proof (every_hasOwnProperty_own _ _ _ _ Hc ltac:(done)) as Hown.
    destruct (every_hasOwnProperty m (key :: keys) 0%Z Hown Hstr) as (c' & Hc' & Hiff).
    rewrite Hc in Hc'. injection Hc' as <-.
    rewrite andb_true_iff, Hiff, Z.ltb_lt. split.
    + intros [Hall Hlen]. repeat split; [done| |done]. intros ->. simpl in Hlen. lia.
    + intros (_ & Hpne & Hall). split; [done|]. destruct pr; [done | simpl; lia].
  - rewrite validateThirdParty_invalid in Hb by done. injection Hb as <-.
    split; [done|]. intros (mp & hk & pr & Hm & Hv' & _).
    unfold field in Hv. rewrite Hm in Hv. simpl in Hv. congruence.
Qed.

(** Whatever the imported schemas: on a wearable meeting all four conditions
    of the check, an own property called [hasOwnProperty] makes it throw. *)
Lemma validateThirdParty_shadowed m :
  third_party_ok m → is_Some (m !! "hasOwnProperty") →
  validateThirdParty (VObj m) = Throws.
Proof.
  intros (mp & hk & pr & Hm & Hv & Hk & Hne & _ & Hp & _) [x Hx].
  rewrite (validateThirdParty_merkle m mp hk pr Hm Hv Hk Hp).
  destruct hk as [|key keys]; [done|].
  rewrite every_from_cons. unfold hasOwnProperty. by rewrite Hx.
Qed.

Lemma validate_shadowed m :
  Wearable.schemaValidator (VObj m) = true →
  Wearable.validateDuplicatedLocales (field m "i18n") = Returns true →
  third_party_ok m → is_Some (m !! "hasOwnProperty") →
  Wearable.validate (VObj m) = Throws.
Proof.
  intros Hs Hdup Hok Hown.
  rewrite validate_object, Hs, Hdup. simpl.
  by rewrite validateThirdParty_shadowed.
Qed.

(** Unless [hasOwnProperty] is hidden, the check returns. *)
Lemma validateThirdParty_returns m :
  merkle_lists_are_arrays = true → m !! "hasOwnProperty" = None →
  ∃ b, validateThirdParty (VObj m) = Returns b.
Proof.
  intros Harr Hown.
  destruct (MerkleProof.validate (field m "merkleProof")) eqn:Hv;
    [|by exists false; apply validateThirdParty_invalid].
  destruct (merkle_shape _ Harr Hv) as (mp & hk & pr & Hx & Hk & Hstr & Hp).
  assert (m !! "merkleProof" = Some (VObj mp)) as Hm.
  { unfold field in Hx. by destruct (m !! "merkleProof"); simplify_eq/=. }
  rewrite Hx in Hv. rewrite (validateThirdParty_merkle m mp hk pr Hm Hv Hk Hp).
  destruct (every_hasOwnProperty m hk 0%Z Hown Hstr) as (c & Hc & _).
  destruct hk; [by eexists|]. rewrite Hc. by eexists.
Qed.

(** Wearable.validate returns on every value, unless the value is an object
    that hides [hasOwnProperty]. *)
Lemma validate_returns v :
  locale_codes_are_strings = true → merkle_lists_are_arrays = true →
  (∀ m, v = VObj m → m !! "hasOwnProperty" = None) →
  ∃ b, Wearable.validate v = Returns b.
Proof.
  intros Hcodes Harr Hown.
  destruct (Wearable.schemaValidator v) eqn:Hs;
    [|by exists false; apply validate_rejects_schema].
  destruct (validate_locales _ Hcodes Hs) as (m & b & -> & Hb & _).
  destruct (validateThirdParty_returns m Harr (Hown m eq_refl)) as [c Hc].
  rewrite validate_object, Hs, Hb. simpl.
  destruct b; [|by eexists]. rewrite Hc. by eexists.
Qed.
End ThirdParty.

(** C2, as the code has it: an accepted wearable passes exactly one of the two
    checks.  Either its rarity passes the Rarity validator and its
    collectionAddress is a non-empty string while it has no well-formed
    Merkle proof, or it has a well-formed Merkle proof while it lacks a valid
    rarity or a non-empty collectionAddress; a wearable passing both checks
    or neither is not accepted. *)
Theorem accepted_is_one_variant `{Imports} (m : gmap string value) :
  merkle_lists_are_arrays = true →
  Wearable.validate (VObj m) = Returns true →
  (standard_ok m ∧ ¬ third_party_ok m) ∨ (third_party_ok m ∧ ¬ standard_ok m).
Proof.
  intros Harr (m' & [= <-] & Hs & _ & b & Htp & Hx)%validate_true.
  pose proof (validateStandardWearable_typed m
                (schemaValidator_collectionAddress m Hs)) as Hstd.
  pose proof (validateThirdParty_decides m b Harr Htp) as Hdec.
  apply XOR_true in Hx as [[Hx ->]|[Hx ->]].
  - left. split; [by apply Hstd|]. intros Hok. by apply Hdec in Hok.
  - right. split; [by apply Hdec|]. intros Hok. apply Hstd in Hok. congruence.
Qed.

(** ** Adding a content record *)

Section Content.
Context `{Imports}.

Lemma content_record_conforms c :
  conforms (with_nullable true (object_schema [] [] (Each string_schema)))
           (content_record c) = true.
Proof.
  unfold content_record. rewrite conforms_with_nullable by done.
  apply conforms_object. repeat split.
  - intros k Hk. by apply elem_of_nil in Hk.
  - intros k x Hx. rewrite lookup_fmap in Hx.
    by destruct (c !! k); simplify_eq/=.
Qed.

Lemma schemaValidator_add_content m c :
  Wearable.schemaValidator (VObj m) = true →
  Wearable.schemaValidator (VObj (<["content" := content_record c]> m)) = true.
Proof.
  rewrite !schemaValidator_spec. intros [Hreq Hall]. split.
  - intros k Hk. specialize (Hreq k Hk). unfold present in *.
    rewrite lookup_insert_ne; [done|]. intros <-. simpl in Hk.
    repeat (apply elem_of_cons in Hk as [Hk|Hk]; [discriminate|]).
    by apply elem_of_nil in Hk.
  - intros k x Hx. destruct (decide (k = "content")) as [->|Hne].
    + rewrite lookup_insert_eq in Hx. injection Hx as <-.
      rewrite check_property_first_match, first_match_app.
      change (first_match "content" Wearable.own_properties)
        with (Some (with_nullable true (object_schema [] [] (Each string_schema)))).
      apply content_record_conforms.
    + rewrite lookup_insert_ne in Hx by done. by apply Hall.
Qed.

Lemma validateThirdParty_add_content m x :
  is_Some (m !! "content") ∨ ¬ hashes_content m →
  validateThirdParty (VObj (<["content" := x]> m)) = validateThirdParty (VObj m).
Proof.
  intros Hcontent. unfold validateThirdParty. cbn [get bind].
  rewrite lookup_insert_ne by done.
  destruct (MerkleProof.validate _); cbn [negb]; [|done].
  destruct (get (default VUndefined (m !! "merkleProof")) "hashingKeys")
    as [hashingKeys| |] eqn:Hkeys; cbn [bind]; [|done..].
  destruct (get hashingKeys "length") as [len| |]; cbn [bind]; [|done..].
  destruct (strict_eq len (VNum 0)) as [[]| |]; cbn [bind]; try done.
  assert (every hashingKeys (fun key _ => hasOwnProperty (VObj (<["content" := x]> m)) key)
          = every hashingKeys (fun key _ => hasOwnProperty (VObj m) key)) as ->; [|done].
  destruct hashingKeys as [| | | | |keys|]; try done. simpl.
  apply every_from_ext. intros key _ Hkey. unfold hasOwnProperty.
  rewrite lookup_insert_ne by done.
  destruct (m !! "hasOwnProperty"); [done|].
  destruct key as [| | | |k| |]; try done. f_equal.
  destruct (decide (k = "content")) as [->|Hne];
    [|by rewrite lookup_insert_ne].
  rewrite lookup_insert_eq.
  destruct Hcontent as [Hsome|Hno].
  - rewrite !bool_decide_eq_true_2; [done..|by eexists].
  - destruct Hno. destruct (m !! "merkleProof") as [[| | | | | |mp]|] eqn:Hm;
      simpl in Hkeys; try done;
      try (by destruct (String.eqb "hashingKeys" "length")).
    exists mp, keys. split; [done|]. split; [|done].
    injection Hkeys as Hkeys. by destruct (mp !! "hashingKeys"); simplify_eq/=.
Qed.

Lemma add_content_accepted m c :
  Wearable.validate (VObj m) = Returns true →
  is_Some (m !! "content") ∨ ¬ hashes_content m →
  Wearable.validate (VObj (<["content" := content_record c]> m)) = Returns true.
Proof.
  intros (m' & [= <-] & Hs & Hdup & b & Htp & Hx)%validate_true Hcontent.
  apply validate_true. eexists. split; [done|].
  split; [by apply schemaValidator_add_content|].
  unfold field. rewrite !lookup_insert_ne by done.
  split; [done|]. exists b. split; [|done].
  by rewrite validateThirdParty_add_content.
Qed.
End Content.

(** C8, as the code has it: a wearable accepted as Standard stays accepted when
    a content record of string values is set on it, provided it already had
    a content property or content is not one of the hashing keys of its
    Merkle proof. *)
Theorem content_keeps_standard_accepted `{Imports}
    (m : gmap string value) (c : gmap string string) :
  Wearable.validate (VObj m) = Returns true →
  isStandard (VObj m) = Returns true →
  is_Some (m !! "content") ∨ ¬ hashes_content m →
  Wearable.validate (VObj (<["content" := content_record c]> m)) = Returns true.
Proof. intros Hv _ Hcontent. by apply add_content_accepted. Qed.

(** C3: on a wearable, whose collectionAddress is a string when it has one,
    the standard-wearable check returns true exactly when the rarity passes
    the Rarity validator and the collectionAddress is a non-empty string, and
    returns false otherwise. *)
Theorem isStandard_iff `{Imports} (m : gmap string value) :
  collectionAddress_typed m →
  (isStandard (VObj m) = Returns true ↔
     Rarity.validate (field m "rarity") = true ∧
     ∃ a, m !! "collectionAddress" = Some (VStr a) ∧ a ≠ "") ∧
  (isStandard (VObj m) = Returns false ↔
     ¬ (Rarity.validate (field m "rarity") = true ∧
        ∃ a, m !! "collectionAddress" = Some (VStr a) ∧ a ≠ "")).
Proof.
  intros Hty. pose proof (validateStandardWearable_typed m Hty) as Hiff.
  unfold standard_ok in Hiff. rewrite isStandard_object, <- Hiff.
  destruct (validateStandardWearable _ _); split; split; done.
Qed.

(** C5: a wearable whose i18n list has two entries, at different positions,
    with the same locale code is never accepted: Wearable.validate returns
    false whatever its other fields are. *)
Theorem repeated_locale_rejected `{Imports} (m : gmap string value)
    (l : list value) (i j : nat) (e1 e2 : value) :
  locale_codes_are_strings = true →
  m !! "i18n" = Some (VArr l) →
  i ≠ j → l !! i = Some e1 → l !! j = Some e2 → code_of e1 = code_of e2 →
  Wearable.validate (VObj m) = Returns false.
Proof.
  intros Hcodes Hl Hij H1 H2 Hc.
  destruct (Wearable.schemaValidator (VObj m)) eqn:Hs;
    [|by apply validate_rejects_schema].
  destruct (validate_locales _ Hcodes Hs) as (m' & b & [= <-] & Hb & Hiff).
  rewrite validate_object, Hs, Hb. simpl.
  destruct b; [|done]. exfalso.
  assert (NoDup (locale_codes (VObj m))) as Hnd by (by apply Hiff).
  simpl in Hnd. rewrite Hl in Hnd. apply Hij.
  eapply NoDup_lookup; [exact Hnd| |].
  - by rewrite list_lookup_fmap, H1.
  - by rewrite list_lookup_fmap, H2, Hc.
Qed.

(** C9: a value accepted by Wearable.validate passes the schema validator; it
    is an object that has each of id, description, name, data, thumbnail,
    image and i18n, whose i18n list and data.representations list have at
    least one entry each, and whose data block has no property beyond
    replaces, hides, tags, representations and category. *)
Theorem accepted_satisfies_schema `{Imports} (v : value) :
  Wearable.validate v = Returns true →
  Wearable.schemaValidator v = true ∧
  ∃ m l d r,
    v = VObj m ∧
    (∀ k, k ∈ ["id"; "description"; "name"; "data"; "thumbnail"; "image"; "i18n"] →
          is_Some (m !! k)) ∧
    m !! "i18n" = Some (VArr l) ∧ (1 ≤ length l)%nat ∧
    m !! "data" = Some (VObj d) ∧
    d !! "representations" = Some (VArr r) ∧ (1 ≤ length r)%nat ∧
    (∀ k, is_Some (d !! k) →
          k ∈ ["replaces"; "hides"; "tags"; "representations"; "category"]).
Proof.
  intros (m & -> & Hs & _)%validate_true. split; [done|].
  destruct (schemaValidator_i18n m Hs) as (l & Hl & Hne & _).
  destruct (schemaValidator_data m Hs) as (d & r & Hd & Hr & Hrne & Hkeys).
  exists m, l, d, r. repeat split; try done.
  - intros k Hk. destruct (schemaValidator_required m k Hs Hk) as (x & -> & _).
    by eexists.
  - destruct l; [done | simpl; lia].
  - destruct r; [done | simpl; lia].
Qed.

(** C10: on a value accepted by Wearable.validate exactly one of the exported
    guards isStandard and isThirdParty returns true, and the other returns
    false. *)
Theorem accepted_exactly_one_guard `{Imports} (w : value) :
  Wearable.validate w = Returns true →
  (isStandard w = Returns true ∧ isThirdParty w = Returns false) ∨
  (isStandard w = Returns false ∧ isThirdParty w = Returns true).
Proof.
  intros (m & -> & _ & _ & b & Htp & Hx)%validate_true.
  unfold isThirdParty. rewrite isStandard_object, Htp.
  apply XOR_true in Hx as [[-> ->]|[-> ->]]; auto.
Qed.

(** ** Enumerations *)

Lemma string_enum_conforms (values : list string) (v : value) :
  conforms (string_enum values) v = true ↔ member values v.
Proof.
  unfold member. split.
  - destruct v; simpl; try discriminate.
    rewrite andb_true_iff, existsb_exists.
    intros [(y & Hin & Heq) _]. apply String.eqb_eq in Heq. subst y.
    exists s. split; [reflexivity | by apply list_elem_of_In].
  - intros (s & -> & Hin). simpl.
    rewrite andb_true_iff, existsb_exists. split; [|reflexivity].
    exists s. split; [by apply list_elem_of_In | apply String.eqb_refl].
Qed.

Lemma string_enum_rejects (values : list string) (v : value) :
  conforms (string_enum values) v = false ↔ ¬ member values v.
Proof.
  rewrite <- string_enum_conforms. destruct (conforms _ v); split; done.
Qed.

(** C6: each enumeration validator (Network, NFTCategory, PropsCategory)
    returns true on exactly the string constants the enum declares and false
    on every other value, be it another string or not a string at all. *)
Theorem enum_validate_membership (v : value) :
  (Network.validate v = true ↔ member Network.values v) ∧
  (Network.validate v = false ↔ ¬ member Network.values v) ∧
  (NFTCategory.validate v = true ↔ member NFTCategory.values v) ∧
  (NFTCategory.validate v = false ↔ ¬ member NFTCategory.values v) ∧
  (PropsCategory.validate v = true ↔ member PropsCategory.values v) ∧
  (PropsCategory.validate v = false ↔ ¬ member PropsCategory.values v).
Proof.
  repeat split;
    first [ apply string_enum_conforms | apply string_enum_rejects
          | apply (proj1 (string_enum_conforms _ _))
          | apply (proj2 (string_enum_conforms _ _))
          | apply (proj1 (string_enum_rejects _ _))
          | apply (proj2 (string_enum_rejects _ _)) ].
Qed.

(** ** The theorems on the sample wearables *)

Section OnSample.
Local Existing Instance Sample.imports.

Lemma validate_true_iff_witness :
  locale_codes_are_strings = true ∧
  (Wearable.validate (VObj Sample.standard) = Returns true ↔
     Wearable.schemaValidator (VObj Sample.standard) = true ∧
     NoDup (locale_codes (VObj Sample.standard)) ∧
     ((isStandard (VObj Sample.standard) = Returns true ∧
       isThirdParty (VObj Sample.standard) = Returns false) ∨
      (isStandard (VObj Sample.standard) = Returns false ∧
       isThirdParty (VObj Sample.standard) = Returns true))).
Proof.
  split; [reflexivity|].
  apply (validate_true_iff (VObj Sample.standard)). reflexivity.
Defined.

Lemma isStandard_iff_witness :
  collectionAddress_typed Sample.standard ∧
  (isStandard (VObj Sample.standard) = Returns true ↔
     Rarity.validate (field Sample.standard "rarity") = true ∧
     ∃ a, Sample.standard !! "collectionAddress" = Some (VStr a) ∧ a ≠ "").
Proof.
  assert (collectionAddress_typed Sample.standard) as Hty by (vm_compute; exact I).
  split; [exact Hty|]. apply (isStandard_iff Sample.standard Hty).
Defined.

Lemma repeated_locale_rejected_witness :
  Wearable.validate (VObj Sample.standard_repeated_locale) = Returns false.
Proof.
  apply (repeated_locale_rejected Sample.standard_repeated_locale
           [Sample.i18n_entry "en" "Hat"; Sample.i18n_entry "en" "Cap"] 0 1
           (Sample.i18n_entry "en" "Hat") (Sample.i18n_entry "en" "Cap"));
    [reflexivity | reflexivity | lia | reflexivity | reflexivity | reflexivity].
Defined.

Lemma accepted_satisfies_schema_witness :
  Wearable.validate (VObj Sample.thirdParty) = Returns true ∧
  Wearable.schemaValidator (VObj Sample.thirdParty) = true.
Proof.
  split; [reflexivity|].
  apply (accepted_satisfies_schema (VObj Sample.thirdParty)). reflexivity.
Defined.

Lemma accepted_exactly_one_guard_witness :
  Wearable.validate (VObj Sample.thirdParty) = Returns true ∧
  ((isStandard (VObj Sample.thirdParty) = Returns true ∧
    isThirdParty (VObj Sample.thirdParty) = Returns false) ∨
   (isStandard (VObj Sample.thirdParty) = Returns false ∧
    isThirdParty (VObj Sample.thirdParty) = Returns true)).
Proof.
  split; [reflexivity|].
  apply (accepted_exactly_one_guard (VObj Sample.thirdParty)). reflexivity.
Defined.

Lemma accepted_is_one_variant_witness :
  merkle_lists_are_arrays = true ∧
  Wearable.validate (VObj Sample.thirdParty) = Returns true ∧
  ((standard_ok Sample.thirdParty ∧ ¬ third_party_ok Sample.thirdParty) ∨
   (third_party_ok Sample.thirdParty ∧ ¬ standard_ok Sample.thirdParty)).
Proof.
  split; [reflexivity|]. split; [reflexivity|].
  apply (accepted_is_one_variant Sample.thirdParty); reflexivity.
Defined.

Lemma content_keeps_standard_accepted_witness :
  Wearable.validate (VObj Sample.standard) = Returns true ∧
  isStandard (VObj Sample.standard) = Returns true ∧
  Wearable.validate
    (VObj (<["content" := content_record {["model.glb" := "Qm1"]}]> Sample.standard))
    = Returns true.
Proof.
  split; [reflexivity|]. split; [reflexivity|].
  apply (content_keeps_standard_accepted Sample.standard);
    [reflexivity | reflexivity |].
  right. intros (mp & keys & Hm & _). vm_compute in Hm. discriminate.
Defined.

(** C2, as stated, fails: this wearable is accepted, yet it has a content
    record, so it is not of the Standard shape, and it has a rarity and no
    Merkle proof, so it is not of the Third-party shape either. *)
Lemma accepted_outside_both_shapes :
  Wearable.validate (VObj Sample.standard_with_content) = Returns true ∧
  ¬ spec_standard_shape Sample.standard_with_content ∧
  ¬ spec_third_party_shape Sample.standard_with_content.
Proof.
  split; [reflexivity|]. split.
  - intros (_ & _ & _ & Hcontent). vm_compute in Hcontent. discriminate.
  - intros (_ & Hrarity & _). vm_compute in Hrarity. discriminate.
Qed.

(** C8, as stated, fails: this wearable is accepted as Standard, its
    third-party check failing only because the hashing key content names no
    property; setting a content record makes that check pass too, and the
    wearable is rejected. *)
Lemma content_turns_accepted_into_rejected :
  Wearable.validate (VObj Sample.standard_pending_content) = Returns true ∧
  isStandard (VObj Sample.standard_pending_content) = Returns true ∧
  isThirdParty (VObj Sample.standard_pending_content) = Returns false ∧
  Wearable.schemaValidator
    (VObj (<["content" := content_record {["model.glb" := "Qm1"]}]>
             Sample.standard_pending_content)) = true ∧
  Wearable.validate
    (VObj (<["content" := content_record {["model.glb" := "Qm1"]}]>
             Sample.standard_pending_content)) = Returns false.
Proof. repeat split; reflexivity. Qed.

(** C4: this wearable has a Merkle proof that passes its validator, with two
    hashing keys, both naming own properties, and a non-empty proof; yet the
    third-party check does not return true: it throws, because the wearable
    has an own property called hasOwnProperty. *)
Theorem isThirdParty_throws_when_shadowed :
  third_party_ok Sample.thirdParty_shadowing ∧
  isThirdParty (VObj Sample.thirdParty_shadowing) = Throws.
Proof.
  split; [|reflexivity].
  exists (list_to_map [("proof", VArr [VStr "0x01"; VStr "0x02"]);
                       ("hashingKeys", VArr [VStr "id"; VStr "name"])]),
         [VStr "id"; VStr "name"], [VStr "0x01"; VStr "0x02"].
  repeat split; try reflexivity; try discriminate.
  intros key Hkey.
  apply elem_of_cons in Hkey as [->|Hkey]; [by exists "id"; split; [|eexists]|].
  apply elem_of_cons in Hkey as [->|Hkey]; [by exists "name"; split; [|eexists]|].
  by apply elem_of_nil in Hkey.
Qed.

(** C1: on the wearable of C4 the schema validator passes, the locale codes
    are distinct and neither check returns true (the standard check returns
    false, the third-party check throws), yet Wearable.validate does not
    return false: it throws.  On a standard wearable that hides
    hasOwnProperty the standard check returns true and the third-party check
    does not, so exactly one of them holds, yet Wearable.validate does not
    return true: it throws again. *)
Theorem validate_xor_lost_when_shadowed :
  (Wearable.schemaValidator (VObj Sample.thirdParty_shadowing) = true ∧
   NoDup (locale_codes (VObj Sample.thirdParty_shadowing)) ∧
   isStandard (VObj Sample.thirdParty_shadowing) = Returns false ∧
   isThirdParty (VObj Sample.thirdParty_shadowing) = Throws ∧
   Wearable.validate (VObj Sample.thirdParty_shadowing) ≠ Returns false) ∧
  (Wearable.schemaValidator (VObj Sample.standard_shadowing) = true ∧
   NoDup (locale_codes (VObj Sample.standard_shadowing)) ∧
   isStandard (VObj Sample.standard_shadowing) = Returns true ∧
   isThirdParty (VObj Sample.standard_shadowing) = Throws ∧
   Wearable.validate (VObj Sample.standard_shadowing) ≠ Returns true).
Proof.
  assert (NoDup [VStr "en"; VStr "es"]) as Hnd.
  { apply NoDup_cons. split; [|apply NoDup_singleton].
    intros Hin. apply list_elem_of_singleton in Hin. discriminate. }
  assert (locale_codes (VObj Sample.thirdParty_shadowing) = [VStr "en"; VStr "es"])
    as Hc1 by (vm_compute; reflexivity).
  assert (locale_codes (VObj Sample.standard_shadowing) = [VStr "en"; VStr "es"])
    as Hc2 by (vm_compute; reflexivity).
  assert (Wearable.validate (VObj Sample.thirdParty_shadowing) = Throws)
    as Hv1 by (vm_compute; reflexivity).
  assert (Wearable.validate (VObj Sample.standard_shadowing) = Throws)
    as Hv2 by (vm_compute; reflexivity).
  rewrite Hc1, Hc2, Hv1, Hv2.
  split; (split; [vm_compute; reflexivity|]); (split; [exact Hnd|]);
    (split; [vm_compute; reflexivity|]); (split; [vm_compute; reflexivity|]);
    intros [=].
Qed.

(** C7: the same wearable passes the schema validator, and Wearable.validate
    throws on it instead of returning. *)
Theorem validate_throws_when_shadowed :
  Wearable.schemaValidator (VObj Sample.thirdParty_shadowing) = true ∧
  Wearable.validateDuplicatedLocales (field Sample.thirdParty_shadowing "i18n")
    = Returns true ∧
  Wearable.validate (VObj Sample.thirdParty_shadowing) = Throws.
Proof. repeat split; reflexivity. Qed.

End OnSample.


(** ** The third-party check, case by case *)

Section ThirdPartyCases.
Context `{Imports}.

Lemma third_party_ok_engaged m : third_party_ok m → engaged m.
Proof.
  intros (mp & hk & pr & Hm & Hv & Hk & Hne & _). by exists mp, hk.
Qed.

Lemma validateThirdParty_not_engaged m :
  merkle_lists_are_arrays = true → ¬ engaged m →
  validateThirdParty (VObj m) = Returns false.
Proof.
  intros Harr Hno.
  destruct (MerkleProof.validate (field m "merkleProof")) eqn:Hv;
    [|by apply validateThirdParty_invalid].
  destruct (merkle_shape _ Harr Hv) as (mp & hk & pr & Hx & Hk & Hstr & Hp).
  assert (m !! "merkleProof" = Some (VObj mp)) as Hm.
  { unfold field in Hx. by destruct (m !! "merkleProof"); simplify_eq/=. }
  rewrite Hx in Hv. rewrite (validateThirdParty_merkle m mp hk pr Hm Hv Hk Hp).
  destruct hk as [|key keys]; [done|]. destruct Hno. by exists mp, (key :: keys).
Qed.

Lemma validateThirdParty_engaged_shadowed m :
  engaged m → is_Some (m !! "hasOwnProperty") →
  validateThirdParty (VObj m) = Throws.
Proof.
  intros (mp & hk & Hm & Hv & Hk & Hne) [x Hx].
  unfold validateThirdParty. simpl.
  rewrite Hm. simpl. rewrite Hv. simpl. rewrite Hk. simpl.
  destruct hk as [|key keys]; [done|].
  simpl. by rewrite Hx.
Qed.

Lemma validateThirdParty_outcome m :
  merkle_lists_are_arrays = true →
  (engaged m ∧ is_Some (m !! "hasOwnProperty") ∧
     validateThirdParty (VObj m) = Throws) ∨
  (¬ (engaged m ∧ is_Some (m !! "hasOwnProperty")) ∧
     ∃ b, validateThirdParty (VObj m) = Returns b ∧ (b = true ↔ third_party_ok m)).
Proof.
  intros Harr.
  destruct (MerkleProof.validate (field m "merkleProof")) eqn:Hv.
  - destruct (merkle_shape _ Harr Hv) as (mp & hk & pr & Hx & Hk & Hstr & Hp).
    assert (m !! "merkleProof" = Some (VObj mp)) as Hm.
    { unfold field in Hx. by destruct (m !! "merkleProof"); simplify_eq/=. }
    rewrite Hx in Hv. destruct hk as [|key keys].
    + right. split.
      * intros [(mp' & hk' & Hm' & _ & Hk' & Hne) _]. by simplify_eq.
      * exists false. split; [by rewrite (validateThirdParty_merkle m mp [] pr)|].
        split; [done|].
        intros (mp' & hk' & pr' & Hm' & _ & Hk' & Hne & _). by simplify_eq.
    + assert (engaged m) as Heng by (by exists mp, (key :: keys)).
      destruct (m !! "hasOwnProperty") as [x|] eqn:Hown.
      * left. split; [done|]. split; [by eexists|].
        apply validateThirdParty_engaged_shadowed; [done|]. by rewrite Hown.
      * right. split; [by intros [_ [? [=]]]|].
        destruct (validateThirdParty_returns m Harr Hown) as [b Hb].
        exists b. split; [done|]. by apply validateThirdParty_decides.
  - right. split.
    + intros [(mp & hk & Hm & Hv' & _) _].
      unfold field in Hv. rewrite Hm in Hv. simpl in Hv. congruence.
    + exists false. split; [by apply validateThirdParty_invalid|].
      split; [done|]. intros (mp & hk & pr & Hm & Hv' & _).
      unfold field in Hv. rewrite Hm in Hv. simpl in Hv. congruence.
Qed.
End ThirdPartyCases.

(** X1: with Merkle proofs whose two lists are arrays (of strings, for the
    hashing keys), the third-party check returns true exactly on a wearable
    that meets the four conditions and has no own property called
    hasOwnProperty. *)
Theorem validateThirdParty_true_iff `{Imports} (m : gmap string value) :
  merkle_lists_are_arrays = true →
  validateThirdParty (VObj m) = Returns true ↔
    third_party_ok m ∧ m !! "hasOwnProperty" = None.
Proof.
  intros Harr.
  destruct (validateThirdParty_outcome m Harr)
    as [(Heng & Hown & Ht)|(Hno & b & Hb & Hiff)].
  - rewrite Ht. split; [done|]. intros [_ Hnone]. rewrite Hnone in Hown.
    by destruct Hown.
  - rewrite Hb. split.
    + intros [= ->]. assert (third_party_ok m) as Hok by (by apply Hiff).
      split; [done|]. destruct (m !! "hasOwnProperty") eqn:Hown; [|done].
      destruct Hno. split; [by apply third_party_ok_engaged | by eexists].
    + intros [Hok _]. f_equal. by apply Hiff.
Qed.

(** X2: the third-party check throws exactly when the Merkle proof passes its
    validator and lists at least one hashing key while the wearable has an
    own property called hasOwnProperty; in every other case it returns. *)
Theorem validateThirdParty_throws_iff `{Imports} (m : gmap string value) :
  merkle_lists_are_arrays = true →
  (validateThirdParty (VObj m) = Throws ↔
     engaged m ∧ is_Some (m !! "hasOwnProperty")) ∧
  (¬ (engaged m ∧ is_Some (m !! "hasOwnProperty")) →
     ∃ b, validateThirdParty (VObj m) = Returns b).
Proof.
  intros Harr.
  destruct (validateThirdParty_outcome m Harr)
    as [(Heng & Hown & Ht)|(Hno & b & Hb & _)].
  - split; [by split|]. intros Hno. by destruct Hno.
  - split; [|by exists b]. rewrite Hb. by split.
Qed.

(** ** Wearable.validate, case by case *)

Section ValidateCases.
Context `{Imports}.

(** Either the schema or the locale check rejects, or the answer is the one
    the two variant checks give. *)
Lemma validate_cases v :
  locale_codes_are_strings = true →
  (Wearable.validate v = Returns false ∧
     ¬ (Wearable.schemaValidator v = true ∧ NoDup (locale_codes v))) ∨
  (∃ m, v = VObj m ∧ Wearable.schemaValidator v = true ∧
        NoDup (locale_codes v) ∧ collectionAddress_typed m ∧
        Wearable.validate v =
          do thirdParty <- validateThirdParty v;
          Returns (Wearable.XOR
                     (validateStandardWearable (field m "rarity")
                                               (field m "collectionAddress"))
                     thirdParty)).
Proof.
  intros Hcodes. destruct (Wearable.schemaValidator v) eqn:Hs.
  - destruct (validate_locales _ Hcodes Hs) as (m & b & -> & Hb & Hiff).
    destruct b.
    + right. exists m. split; [done|]. split; [done|]. split; [by apply Hiff|].
      split; [by apply schemaValidator_collectionAddress|].
      by rewrite validate_object, Hs, Hb.
    + left. split; [by rewrite validate_object, Hs, Hb|].
      intros [_ Hnd]. by apply Hiff in Hnd.
  - left. split; [by apply validate_rejects_schema | by intros [[=] _]].
Qed.
End ValidateCases.

(** X3: Wearable.validate throws exactly on an object that passes the schema
    and the locale check, has a Merkle proof that passes its validator with at
    least one hashing key, and has an own property called hasOwnProperty; on
    every other value, object or not, it returns a boolean. *)
Theorem validate_throws_iff `{Imports} (v : value) :
  locale_codes_are_strings = true → merkle_lists_are_arrays = true →
  (Wearable.validate v = Throws ↔
     ∃ m, v = VObj m ∧ Wearable.schemaValidator v = true ∧
          NoDup (locale_codes v) ∧
          engaged m ∧ is_Some (m !! "hasOwnProperty")) ∧
  ((¬ ∃ m, v = VObj m ∧ Wearable.schemaValidator v = true ∧
           NoDup (locale_codes v) ∧
           engaged m ∧ is_Some (m !! "hasOwnProperty")) →
   ∃ b, Wearable.validate v = Returns b).
Proof.
  intros Hcodes Harr.
  destruct (validate_cases v Hcodes) as [[Hv Hno]|(m & -> & Hs & Hnd & _ & Hv)].
  - split; [|by exists false]. rewrite Hv. split; [done|].
    intros (m & _ & Hs & Hnd & _). by destruct Hno.
  - rewrite Hv.
    destruct (validateThirdParty_outcome m Harr)
      as [(Heng & Hown & Ht)|(Hno & b & Hb & _)].
    + rewrite Ht. simpl. split; [|intros Hn; destruct Hn; by exists m].
      split; [|done]. intros _. by exists m.
    + rewrite Hb. simpl. split; [|by eexists]. split; [done|].
      intros (m' & [= <-] & _ & _ & Heng & Hown). by destruct Hno.
Qed.

(** X4: Wearable.validate returns true exactly on an object that passes the
    schema, has pairwise distinct locale codes, and either is standard (valid
    rarity, non-empty collectionAddress) without a well-formed Merkle proof,
    the third-party check not being one that throws, or has a well-formed
    Merkle proof and no own property hasOwnProperty without being standard. *)
Theorem validate_true_on_data `{Imports} (m : gmap string value) :
  locale_codes_are_strings = true → merkle_lists_are_arrays = true →
  Wearable.validate (VObj m) = Returns true ↔
    Wearable.schemaValidator (VObj m) = true ∧
    NoDup (locale_codes (VObj m)) ∧
    ((standard_ok m ∧ ¬ third_party_ok m ∧
        ¬ (engaged m ∧ is_Some (m !! "hasOwnProperty"))) ∨
     (third_party_ok m ∧ ¬ standard_ok m ∧ m !! "hasOwnProperty" = None)).
Proof.
  intros Hcodes Harr.
  destruct (validate_cases (VObj m) Hcodes)
    as [[Hv Hno]|(m' & [= <-] & Hs & Hnd & Hty & Hv)].
  - rewrite Hv. split; [done|]. intros (Hs & Hnd & _). by destruct Hno.
  - rewrite Hv. pose proof (validateStandardWearable_typed m Hty) as Hstd.
    destruct (validateThirdParty_outcome m Harr)
      as [(Heng & Hown & Ht)|(Hno & b & Hb & Hiff)].
    + rewrite Ht. simpl. split; [done|].
      intros (_ & _ & [(_ & _ & Hn)|(_ & _ & Hnone)]); [by destruct Hn|].
      rewrite Hnone in Hown. by destruct Hown.
    + rewrite Hb. simpl. split.
      * intros [= Hx]. split; [done|]. split; [done|].
        apply XOR_true in Hx as [[Hx ->]|[Hx ->]].
        -- left. split; [by apply Hstd|]. split; [|done].
           intros Hok. by apply Hiff in Hok.
        -- right. assert (third_party_ok m) as Hok by (by apply Hiff).
           split; [done|]. split; [intros Hs'; apply Hstd in Hs'; congruence|].
           destruct (m !! "hasOwnProperty") eqn:Hown; [|done].
           destruct Hno. split; [by apply third_party_ok_engaged | by eexists].
      * intros (_ & _ & [(Hok & Hntp & _)|(Hok & Hns & _)]); f_equal;
          apply XOR_true.
        -- left. split; [by apply Hstd|].
           destruct b; [|done]. destruct Hntp. by apply Hiff.
        -- right. split; [|by apply Hiff].
           destruct (validateStandardWearable _ _) eqn:Hsw; [|done].
           destruct Hns. by apply Hstd.
Qed.

(** ** Setting a property on a wearable *)

Lemma forallb_Permutation {A : Type} (f : A → bool) (l l' : list A) :
  l ≡ₚ l' → forallb f l = forallb f l'.
Proof.
  intros Hp. apply eq_true_iff_eq. rewrite !forallb_forall. split.
  - intros Hall x Hx. apply Hall.
    apply list_elem_of_In. rewrite Hp. by apply list_elem_of_In.
  - intros Hall x Hx. apply Hall.
    apply list_elem_of_In. rewrite <- Hp. by apply list_elem_of_In.
Qed.

Lemma conforms_Permutation s (l l' : list value) :
  l ≡ₚ l' → conforms s (VArr l) = conforms s (VArr l').
Proof.
  intros Hp. destruct s as [t nul en ml its mi props req addl]; simpl.
  destruct t; try done. rewrite (Permutation_length Hp).
  destruct its as [si|]; [|done]. by rewrite (forallb_Permutation _ _ _ Hp).
Qed.

Lemma coded_Permutation (l l' : list value) :
  l ≡ₚ l' → ∀ cs, Forall2 coded l cs → ∃ cs', Forall2 coded l' cs' ∧ cs ≡ₚ cs'.
Proof.
  induction 1 as [|x l l' Hp IH|x y l|l1 l2 l3 Hp1 IH1 Hp2 IH2]; intros cs Hcs.
  - exists cs. by split.
  - apply Forall2_cons_inv_l in Hcs as (c & cs0 & Hc & Hcs0 & ->).
    destruct (IH cs0 Hcs0) as (cs' & Hcs' & Hperm).
    exists (c :: cs'). split; [by constructor | by constructor].
  - apply Forall2_cons_inv_l in Hcs as (c1 & cs1 & Hc1 & Hcs1 & ->).
    apply Forall2_cons_inv_l in Hcs1 as (c2 & cs2 & Hc2 & Hcs2 & ->).
    exists (c2 :: c1 :: cs2). split; [by repeat constructor | by constructor].
  - destruct (IH1 cs Hcs) as (cs2 & Hcs2 & Hperm2).
    destruct (IH2 cs2 Hcs2) as (cs3 & Hcs3 & Hperm3).
    exists cs3. split; [done | by etrans].
Qed.

Section Insert.
Context `{Imports}.

Lemma declared_own k sk :
  first_match k Wearable.own_properties = Some sk → declared k.
Proof. intros Hk. unfold declared. rewrite first_match_app, Hk. by eexists. Qed.

Lemma required_declared k : k ∈ required Wearable.schema → declared k.
Proof.
  simpl. intros Hk.
  repeat (apply elem_of_cons in Hk as [->|Hk]; [by eapply declared_own|]).
  by apply elem_of_nil in Hk.
Qed.

(** Setting a property that is neither [merkleProof] nor [hasOwnProperty],
    and that was there already or is not a hashing key, leaves the
    third-party check as it was. *)
Lemma validateThirdParty_insert m k x :
  k ≠ "merkleProof" → k ≠ "hasOwnProperty" →
  is_Some (m !! k) ∨ ¬ hashes_key m k →
  validateThirdParty (VObj (<[k := x]> m)) = validateThirdParty (VObj m).
Proof.
  intros Hmp Hown Hkey. unfold validateThirdParty. cbn [get bind].
  rewrite lookup_insert_ne by done.
  destruct (MerkleProof.validate _); cbn [negb]; [|done].
  destruct (get (default VUndefined (m !! "merkleProof")) "hashingKeys")
    as [hashingKeys| |] eqn:Hkeys; cbn [bind]; [|done..].
  destruct (get hashingKeys "length") as [len| |]; cbn [bind]; [|done..].
  destruct (strict_eq len (VNum 0)) as [[]| |]; cbn [bind]; try done.
  assert (every hashingKeys (fun key _ => hasOwnProperty (VObj (<[k := x]> m)) key)
          = every hashingKeys (fun key _ => hasOwnProperty (VObj m) key)) as ->; [|done].
  destruct hashingKeys as [| | | | |keys|]; try done. simpl.
  apply every_from_ext. intros key _ Hin. unfold hasOwnProperty.
  rewrite lookup_insert_ne by done.
  destruct (m !! "hasOwnProperty"); [done|].
  destruct key as [| | | |k'| |]; try done. f_equal.
  destruct (decide (k' = k)) as [->|Hne]; [|by rewrite lookup_insert_ne].
  rewrite lookup_insert_eq.
  destruct Hkey as [Hsome|Hno].
  - rewrite !bool_decide_eq_true_2; [done..|by eexists].
  - destruct Hno. destruct (m !! "merkleProof") as [[| | | | | |mp]|] eqn:Hm;
      simpl in Hkeys; try done;
      try (by destruct (String.eqb "hashingKeys" "length")).
    exists mp, keys. split; [done|]. split; [|done].
    injection Hkeys as Hkeys. by destruct (mp !! "hashingKeys"); simplify_eq/=.
Qed.

Lemma schemaValidator_insert_undeclared m k x :
  ¬ declared k →
  Wearable.schemaValidator (VObj (<[k := x]> m)) = Wearable.schemaValidator (VObj m).
Proof.
  intros Hnd. apply eq_true_iff_eq. rewrite !schemaValidator_spec.
  assert (∀ y, check_property conforms
                 (Wearable.own_properties ++ displayableProperties)
                 (Allow true) k y = true) as Hfree.
  { intros y. rewrite check_property_first_match.
    destruct (first_match k _) eqn:Hk; [|done]. destruct Hnd. by eexists. }
  assert (∀ k', k' ∈ required Wearable.schema → k ≠ k') as Hreqne.
  { intros k' Hk' ->. by apply Hnd, required_declared. }
  split; intros [Hreq Hall]; split.
  - intros k' Hk'. specialize (Hreq k' Hk'). unfold present in *.
    by rewrite lookup_insert_ne in Hreq by by apply Hreqne.
  - intros k' y Hy. destruct (decide (k = k')) as [<-|Hne]; [done|].
    apply Hall. by rewrite lookup_insert_ne.
  - intros k' Hk'. specialize (Hreq k' Hk'). unfold present in *.
    by rewrite lookup_insert_ne by by apply Hreqne.
  - intros k' y Hy. destruct (decide (k = k')) as [<-|Hne]; [done|].
    apply Hall. by rewrite lookup_insert_ne in Hy.
Qed.

Lemma schemaValidator_permute_i18n m (l l' : list value) :
  m !! "i18n" = Some (VArr l) → l ≡ₚ l' →
  Wearable.schemaValidator (VObj (<["i18n" := VArr l']> m))
    = Wearable.schemaValidator (VObj m).
Proof.
  intros Hl Hp. apply eq_true_iff_eq. rewrite !schemaValidator_spec.
  assert (∀ ps addl, check_property conforms ps addl "i18n" (VArr l')
                     = check_property conforms ps addl "i18n" (VArr l)) as Hsame.
  { intros ps addl. rewrite !check_property_first_match.
    destruct (first_match _ _); [by rewrite (conforms_Permutation _ _ _ Hp)|].
    destruct addl; [done|]. by rewrite (conforms_Permutation _ _ _ Hp). }
  split; intros [Hreq Hall]; split.
  - intros k Hk. destruct (decide (k = "i18n")) as [->|Hne].
    + unfold present. by rewrite Hl.
    + specialize (Hreq k Hk). unfold present in *.
      by rewrite lookup_insert_ne in Hreq.
  - intros k y Hy. destruct (decide (k = "i18n")) as [->|Hne].
    + rewrite Hl in Hy. injection Hy as <-. rewrite <- Hsame.
      apply Hall. by rewrite lookup_insert_eq.
    + apply Hall. by rewrite lookup_insert_ne.
  - intros k Hk. destruct (decide (k = "i18n")) as [->|Hne].
    + unfold present. by rewrite lookup_insert_eq.
    + specialize (Hreq k Hk). unfold present in *.
      by rewrite lookup_insert_ne.
  - intros k y Hy. destruct (decide (k = "i18n")) as [->|Hne].
    + rewrite lookup_insert_eq in Hy. injection Hy as <-. rewrite Hsame.
      by apply Hall.
    + apply Hall. by rewrite lookup_insert_ne in Hy.
Qed.
End Insert.

(** X5: on a list of entries whose codes are strings, the locale check
    returns, and returns true exactly when no code occurs twice. *)
Theorem validateDuplicatedLocales_distinct (l : list value) (cs : list string) :
  Forall2 coded l cs →
  ∃ b, Wearable.validateDuplicatedLocales (VArr l) = Returns b ∧
       (b = true ↔ NoDup cs) ∧ (b = false ↔ ¬ NoDup cs).
Proof.
  intros Hl. destruct (validateDuplicatedLocales_codes l cs Hl) as (b & Hb & Hiff).
  exists b. split; [done|]. split; [done|].
  rewrite <- Hiff. by destruct b.
Qed.

(** X6: Wearable.validate does not depend on the order of the i18n entries. *)
Theorem i18n_order_irrelevant `{Imports}
    (m : gmap string value) (l l' : list value) :
  locale_codes_are_strings = true →
  m !! "i18n" = Some (VArr l) → l ≡ₚ l' →
  Wearable.validate (VObj (<["i18n" := VArr l']> m)) = Wearable.validate (VObj m).
Proof.
  intros Hcodes Hl Hp. rewrite !validate_object.
  rewrite (schemaValidator_permute_i18n m l l' Hl Hp).
  destruct (Wearable.schemaValidator (VObj m)) eqn:Hs; [|done].
  destruct (schemaValidator_i18n m Hs) as (l0 & Hl0 & _ & Hall).
  rewrite Hl in Hl0. injection Hl0 as <-.
  destruct (i18n_entries_coded l Hcodes Hall) as (cs & Hcs & _).
  destruct (coded_Permutation l l' Hp cs Hcs) as (cs' & Hcs' & Hperm).
  destruct (validateDuplicatedLocales_codes l cs Hcs) as (b & Hb & Hiff).
  destruct (validateDuplicatedLocales_codes l' cs' Hcs') as (b' & Hb' & Hiff').
  assert (b' = b) as ->.
  { apply eq_true_iff_eq. by rewrite Hiff, Hiff', Hperm. }
  unfold field. rewrite lookup_insert_eq, Hl. cbn [default from_option id].
  rewrite Hb, Hb'. cbn [bind]. destruct b; [|done].
  rewrite validateThirdParty_insert by (done || by left; eexists).
  by rewrite !lookup_insert_ne.
Qed.

(** X7: the schema is open: with Merkle proofs whose hashing keys are an
    array of strings and whose proof is an array, setting a property the
    schema does not declare, other than hasOwnProperty, that the wearable had
    already or that is not one of its hashing keys, does not change what
    Wearable.validate answers. *)
Theorem undeclared_property_ignored `{Imports}
    (m : gmap string value) (k : string) (x : value) :
  merkle_lists_are_arrays = true →
  ¬ declared k → k ≠ "hasOwnProperty" →
  is_Some (m !! k) ∨ ¬ hashes_key m k →
  Wearable.validate (VObj (<[k := x]> m)) = Wearable.validate (VObj m).
Proof.
  intros _ Hnd Hown Hkey.
  assert (∀ k' sk, first_match k' Wearable.own_properties = Some sk → k ≠ k')
    as Hne.
  { intros k' sk Hk' ->. by eapply Hnd, declared_own. }
  rewrite !validate_object, schemaValidator_insert_undeclared by done.
  unfold field.
  rewrite !lookup_insert_ne by (by eapply Hne).
  rewrite validateThirdParty_insert; [done| |done..].
  by eapply Hne.
Qed.

(** ** What an accepted value is made of *)

Lemma array_schema_conforms s n y :
  conforms (array_schema s n) y = true →
  ∃ l, y = VArr l ∧ ∀ x, x ∈ l → conforms s x = true.
Proof.
  intros Hc. destruct y as [| | | | |l|]; try done.
  apply conforms_array in Hc as (_ & _ & _ & Hall).
  exists l. split; [done|]. by apply Hall.
Qed.

Lemma string_min_one_conforms t :
  conforms (string_min 1) t = true → ∃ s, t = VStr s ∧ s ≠ "".
Proof.
  destruct t as [| | | |s| |]; try done. intros Hc.
  exists s. split; [done|]. by intros ->.
Qed.

Lemma nullable_conforms s x :
  conforms (with_nullable true s) x = true → x = VNull ∨ conforms s x = true.
Proof.
  destruct x; try (by left); rewrite conforms_with_nullable by done; by right.
Qed.

Section FieldTypes.
Context `{Imports}.

Lemma schemaValidator_string_field m k :
  Wearable.schemaValidator (VObj m) = true →
  k ∈ ["id"; "description"; "name"; "thumbnail"; "image"] →
  ∃ s, m !! k = Some (VStr s).
Proof.
  intros Hs Hk.
  destruct (schemaValidator_required m k Hs) as (x & Hx & Hdef).
  { repeat (apply elem_of_cons in Hk as [->|Hk];
            [repeat (constructor; try done)|]).
    by apply elem_of_nil in Hk. }
  assert (first_match k Wearable.own_properties = Some string_schema) as Hsk.
  { repeat (apply elem_of_cons in Hk as [->|Hk]; [done|]).
    by apply elem_of_nil in Hk. }
  destruct (schemaValidator_own m k x _ Hs Hx Hsk) as [?|Hc]; [done|].
  destruct x; try done. by eexists.
Qed.

Lemma schemaValidator_data_fields m :
  Wearable.schemaValidator (VObj m) = true →
  ∃ d replaces hides tags representations category,
    m !! "data" = Some (VObj d) ∧
    d !! "replaces" = Some (VArr replaces) ∧
    (∀ c, c ∈ replaces → generateValidator WearableCategory_schema c = true) ∧
    d !! "hides" = Some (VArr hides) ∧
    (∀ c, c ∈ hides → generateValidator WearableCategory_schema c = true) ∧
    d !! "tags" = Some (VArr tags) ∧
    (∀ t, t ∈ tags → ∃ s, t = VStr s ∧ s ≠ "") ∧
    d !! "representations" = Some (VArr representations) ∧
    (∀ r, r ∈ representations →
          generateValidator WearableRepresentation_schema r = true) ∧
    d !! "category" = Some category ∧
    generateValidator WearableCategory_schema category = true.
Proof.
  intros Hm.
  destruct (schemaValidator_required m "data" Hm) as (x & Hx & Hdef);
    [set_solver|].
  destruct (schemaValidator_own m "data" x _ Hm Hx eq_refl) as [?|Hc]; [done|].
  destruct x as [| | | | | |d]; try done.
  apply conforms_object in Hc as (_ & _ & Hreq & Hall). simpl in Hreq.
  assert (∀ k sk,
            k ∈ ["replaces"; "hides"; "tags"; "representations"; "category"] →
            first_match k
              [ ("replaces", array_schema WearableCategory_schema 0);
                ("hides", array_schema WearableCategory_schema 0);
                ("tags", array_schema (string_min 1) 0);
                ("representations", array_schema WearableRepresentation_schema 1);
                ("category", WearableCategory_schema) ] = Some sk →
            ∃ y, d !! k = Some y ∧ conforms sk y = true) as Hfield.
  { intros k sk Hk Hsk.
    destruct (proj1 (present_spec d k) (Hreq k Hk)) as (y & Hy & Hydef).
    exists y. split; [done|]. specialize (Hall k y Hy).
    rewrite check_property_first_match in Hall.
    change (first_match k (properties _)) with (first_match k
              [ ("replaces", array_schema WearableCategory_schema 0);
                ("hides", array_schema WearableCategory_schema 0);
                ("tags", array_schema (string_min 1) 0);
                ("representations", array_schema WearableRepresentation_schema 1);
                ("category", WearableCategory_schema) ]) in Hall.
    rewrite Hsk in Hall. by destruct y. }
  destruct (Hfield "replaces" _ ltac:(set_solver) eq_refl) as (y1 & Hy1 & Hc1).
  destruct (Hfield "hides" _ ltac:(set_solver) eq_refl) as (y2 & Hy2 & Hc2).
  destruct (Hfield "tags" _ ltac:(set_solver) eq_refl) as (y3 & Hy3 & Hc3).
  destruct (Hfield "representations" _ ltac:(set_solver) eq_refl)
    as (y4 & Hy4 & Hc4).
  destruct (Hfield "category" _ ltac:(repeat constructor) eq_refl)
    as (y5 & Hy5 & Hc5).
  apply array_schema_conforms in Hc1 as (l1 & -> & Hl1).
  apply array_schema_conforms in Hc2 as (l2 & -> & Hl2).
  apply array_schema_conforms in Hc3 as (l3 & -> & Hl3).
  apply array_schema_conforms in Hc4 as (l4 & -> & Hl4).
  exists d, l1, l2, l3, l4, y5. repeat split; try done.
  intros t Ht. by apply string_min_one_conforms, Hl3.
Qed.

Lemma schemaValidator_optional m k sk x :
  Wearable.schemaValidator (VObj m) = true → m !! k = Some x →
  first_match k Wearable.own_properties = Some (with_nullable true sk) →
  x = VUndefined ∨ x = VNull ∨ conforms sk x = true.
Proof.
  intros Hs Hx Hsk.
  destruct (schemaValidator_own m k x _ Hs Hx Hsk) as [?|Hc]; [by left|].
  right. by apply nullable_conforms.
Qed.
End FieldTypes.

(** X8: a value accepted by Wearable.validate has strings for id,
    description, name, thumbnail and image, and every entry of its i18n list
    passes the I18N schema. *)
Theorem accepted_has_typed_fields `{Imports} (v : value) :
  Wearable.validate v = Returns true →
  ∃ m l,
    v = VObj m ∧
    (∀ k, k ∈ ["id"; "description"; "name"; "thumbnail"; "image"] →
          ∃ s, m !! k = Some (VStr s)) ∧
    m !! "i18n" = Some (VArr l) ∧
    (∀ entry, entry ∈ l → generateValidator I18N_schema entry = true).
Proof.
  intros (m & -> & Hs & _)%validate_true.
  destruct (schemaValidator_i18n m Hs) as (l & Hl & _ & Hall).
  exists m, l. repeat split; [|done..].
  intros k Hk. by apply schemaValidator_string_field.
Qed.

(** X9: in a value accepted by Wearable.validate, data.replaces and data.hides
    are lists of wearable categories, data.category is a wearable category,
    data.tags is a list of non-empty strings and every entry of
    data.representations passes the representation schema. *)
Theorem accepted_has_typed_data `{Imports} (v : value) :
  Wearable.validate v = Returns true →
  ∃ m d replaces hides tags representations category,
    v = VObj m ∧ m !! "data" = Some (VObj d) ∧
    d !! "replaces" = Some (VArr replaces) ∧
    (∀ c, c ∈ replaces → generateValidator WearableCategory_schema c = true) ∧
    d !! "hides" = Some (VArr hides) ∧
    (∀ c, c ∈ hides → generateValidator WearableCategory_schema c = true) ∧
    d !! "tags" = Some (VArr tags) ∧
    (∀ t, t ∈ tags → ∃ s, t = VStr s ∧ s ≠ "") ∧
    d !! "representations" = Some (VArr representations) ∧
    (∀ r, r ∈ representations →
          generateValidator WearableRepresentation_schema r = true) ∧
    d !! "category" = Some category ∧
    generateValidator WearableCategory_schema category = true.
Proof.
  intros (m & -> & Hs & _)%validate_true.
  destruct (schemaValidator_data_fields m Hs)
    as (d & l1 & l2 & l3 & l4 & c & Hfields).
  by exists m, d, l1, l2, l3, l4, c.
Qed.

(** X10: in a value accepted by Wearable.validate each optional property is
    absent, undefined, null or of its declared kind: collectionAddress a
    string, rarity, metrics and merkleProof values that pass their schemas,
    content an object all of whose values are strings. *)
Theorem accepted_has_typed_optionals `{Imports} (v : value) :
  Wearable.validate v = Returns true →
  ∃ m,
    v = VObj m ∧
    (∀ x, m !! "collectionAddress" = Some x →
          x = VUndefined ∨ x = VNull ∨ ∃ a, x = VStr a) ∧
    (∀ x, m !! "rarity" = Some x →
          x = VUndefined ∨ x = VNull ∨ Rarity.validate x = true) ∧
    (∀ x, m !! "metrics" = Some x →
          x = VUndefined ∨ x = VNull ∨ generateValidator Metrics_schema x = true) ∧
    (∀ x, m !! "merkleProof" = Some x →
          x = VUndefined ∨ x = VNull ∨ MerkleProof.validate x = true) ∧
    (∀ x, m !! "content" = Some x →
          x = VUndefined ∨ x = VNull ∨
          ∃ c, x = VObj c ∧ ∀ k y, c !! k = Some y → ∃ s, y = VStr s).
Proof.
  intros (m & -> & Hs & _)%validate_true. exists m. split; [done|].
  assert (∀ k sk x,
            first_match k Wearable.own_properties = Some (with_nullable true sk) →
            m !! k = Some x →
            x = VUndefined ∨ x = VNull ∨ conforms sk x = true) as Hopt.
  { intros k sk x Hsk Hx. by eapply schemaValidator_optional. }
  split; [|split; [|split; [|split]]]; intros x Hx.
  - destruct (Hopt "collectionAddress" string_schema x eq_refl Hx)
      as [?|[?|Hc]]; auto.
    right; right. destruct x; try done. by eexists.
  - by apply (Hopt "rarity" Rarity_schema).
  - by apply (Hopt "metrics" Metrics_schema).
  - by apply (Hopt "merkleProof" MerkleProof_schema).
  - destruct (Hopt "content" (object_schema [] [] (Each string_schema)) x
                eq_refl Hx) as [?|[?|Hc]]; auto.
    right; right. destruct x as [| | | | | |c]; try done.
    exists c. split; [done|].
    apply conforms_object in Hc as (_ & _ & _ & Hall).
    intros k y Hy. specialize (Hall k y Hy).
    rewrite check_property_first_match in Hall. simpl in Hall.
    destruct y; try done. by eexists.
Qed.

(** X11: on a value that is not an object Wearable.validate returns false; the
    exported guards isStandard and isThirdParty throw on undefined and null
    and return false on every other such value. *)
Theorem guards_on_non_objects `{Imports} (v : value) :
  (∀ m, v ≠ VObj m) →
  Wearable.validate v = Returns false ∧
  ((v = VUndefined ∨ v = VNull) →
     isStandard v = Throws ∧ isThirdParty v = Throws) ∧
  (v ≠ VUndefined → v ≠ VNull →
     isStandard v = Returns false ∧ isThirdParty v = Returns false).
Proof.
  intros Hv.
  assert (Rarity.validate VUndefined = false) as Hr by apply conforms_undefined.
  assert (MerkleProof.validate VUndefined = false) as Hmp
    by apply conforms_undefined.
  unfold isThirdParty, validateThirdParty, isStandard, validateStandardWearable.
  destruct v as [| | | | | |m]; [..|by destruct (Hv m)];
    (split; [done|]); (split; [intros [?|?]; try done | intros ? ?; try done]);
    simpl; by rewrite ?Hr, ?Hmp.
Qed.

(** X12: a wearable that passes both variant checks, or neither, without the
    third-party check throwing, gets false from Wearable.validate. *)
Theorem both_or_neither_rejected `{Imports} (m : gmap string value) :
  locale_codes_are_strings = true → merkle_lists_are_arrays = true →
  ¬ (engaged m ∧ is_Some (m !! "hasOwnProperty")) →
  (standard_ok m ∧ third_party_ok m) ∨ (¬ standard_ok m ∧ ¬ third_party_ok m) →
  Wearable.validate (VObj m) = Returns false.
Proof.
  intros Hcodes Harr Hno Hsame.
  destruct (validate_cases (VObj m) Hcodes)
    as [[Hv _]|(m' & [= <-] & _ & _ & Hty & Hv)]; [done|].
  rewrite Hv. pose proof (validateStandardWearable_typed m Hty) as Hstd.
  destruct (validateThirdParty_outcome m Harr)
    as [(Heng & Hown & _)|(_ & b & Hb & Hiff)]; [by destruct Hno|].
  rewrite Hb. simpl. f_equal.
  destruct Hsame as [[Hs Ht]|[Hs Ht]].
  - apply Hstd in Hs as ->. apply Hiff in Ht as ->. done.
  - destruct (validateStandardWearable _ _) eqn:Hsw;
      [by destruct Hs; apply Hstd|].
    destruct b; [by destruct Ht; apply Hiff | done].
Qed.

(** ** The further theorems on the sample wearables *)

Section MoreOnSample.
Local Existing Instance Sample.imports.

Lemma validateThirdParty_true_iff_witness :
  merkle_lists_are_arrays = true ∧
  (validateThirdParty (VObj Sample.thirdParty) = Returns true ↔
     third_party_ok Sample.thirdParty ∧
     Sample.thirdParty !! "hasOwnProperty" = None).
Proof.
  split; [reflexivity|].
  apply (validateThirdParty_true_iff Sample.thirdParty). reflexivity.
Defined.

Lemma validateThirdParty_throws_iff_witness :
  merkle_lists_are_arrays = true ∧
  (validateThirdParty (VObj Sample.thirdParty_shadowing) = Throws ↔
     engaged Sample.thirdParty_shadowing ∧
     is_Some (Sample.thirdParty_shadowing !! "hasOwnProperty")).
Proof.
  split; [reflexivity|].
  apply (validateThirdParty_throws_iff Sample.thirdParty_shadowing). reflexivity.
Defined.

Lemma validate_throws_iff_witness :
  locale_codes_are_strings = true ∧ merkle_lists_are_arrays = true ∧
  (Wearable.validate (VObj Sample.thirdParty_shadowing) = Throws ↔
     ∃ m, VObj Sample.thirdParty_shadowing = VObj m ∧
          Wearable.schemaValidator (VObj Sample.thirdParty_shadowing) = true ∧
          NoDup (locale_codes (VObj Sample.thirdParty_shadowing)) ∧
          engaged m ∧ is_Some (m !! "hasOwnProperty")).
Proof.
  split; [reflexivity|]. split; [reflexivity|].
  apply (validate_throws_iff (VObj Sample.thirdParty_shadowing)); reflexivity.
Defined.

Lemma validate_true_on_data_witness :
  locale_codes_are_strings = true ∧ merkle_lists_are_arrays = true ∧
  (Wearable.validate (VObj Sample.standard) = Returns true ↔
     Wearable.schemaValidator (VObj Sample.standard) = true ∧
     NoDup (locale_codes (VObj Sample.standard)) ∧
     ((standard_ok Sample.standard ∧ ¬ third_party_ok Sample.standard ∧
         ¬ (engaged Sample.standard ∧
            is_Some (Sample.standard !! "hasOwnProperty"))) ∨
      (third_party_ok Sample.standard ∧ ¬ standard_ok Sample.standard ∧
         Sample.standard !! "hasOwnProperty" = None))).
Proof.
  split; [reflexivity|]. split; [reflexivity|].
  apply (validate_true_on_data Sample.standard); reflexivity.
Defined.

Lemma validateDuplicatedLocales_distinct_witness :
  Forall2 coded [Sample.i18n_entry "en" "Hat"; Sample.i18n_entry "es" "Sombrero"]
                ["en"; "es"] ∧
  ∃ b, Wearable.validateDuplicatedLocales
         (VArr [Sample.i18n_entry "en" "Hat"; Sample.i18n_entry "es" "Sombrero"])
         = Returns b ∧
       (b = true ↔ NoDup ["en"; "es"]) ∧ (b = false ↔ ¬ NoDup ["en"; "es"]).
Proof.
  assert (Forall2 coded
            [Sample.i18n_entry "en" "Hat"; Sample.i18n_entry "es" "Sombrero"]
            ["en"; "es"]) as Hl
    by (repeat constructor).
  split; [exact Hl|]. apply (validateDuplicatedLocales_distinct _ _ Hl).
Defined.

Lemma i18n_order_irrelevant_witness :
  locale_codes_are_strings = true ∧
  Wearable.validate
    (VObj (<["i18n" := VArr [Sample.i18n_entry "es" "Sombrero";
                             Sample.i18n_entry "en" "Hat"]]> Sample.standard))
    = Wearable.validate (VObj Sample.standard).
Proof.
  split; [reflexivity|].
  apply (i18n_order_irrelevant Sample.standard
           [Sample.i18n_entry "en" "Hat"; Sample.i18n_entry "es" "Sombrero"]);
    [reflexivity | reflexivity | apply perm_swap].
Defined.

Lemma undeclared_property_ignored_witness :
  merkle_lists_are_arrays = true ∧ ¬ declared "extra" ∧
  Wearable.validate (VObj (<["extra" := VNum 7]> Sample.standard))
    = Wearable.validate (VObj Sample.standard).
Proof.
  assert (¬ declared "extra") as Hnd.
  { intros [sk Hsk]. vm_compute in Hsk. discriminate. }
  assert (merkle_lists_are_arrays = true) as Harr by reflexivity.
  split; [exact Harr|]. split; [exact Hnd|].
  apply (undeclared_property_ignored Sample.standard "extra" (VNum 7) Harr Hnd);
    [discriminate|].
  right. intros (mp & keys & Hm & _). vm_compute in Hm. discriminate.
Defined.

Lemma accepted_has_typed_fields_witness :
  Wearable.validate (VObj Sample.standard) = Returns true ∧
  ∃ m l,
    VObj Sample.standard = VObj m ∧
    (∀ k, k ∈ ["id"; "description"; "name"; "thumbnail"; "image"] →
          ∃ s, m !! k = Some (VStr s)) ∧
    m !! "i18n" = Some (VArr l) ∧
    (∀ entry, entry ∈ l → generateValidator I18N_schema entry = true).
Proof.
  split; [reflexivity|].
  apply (accepted_has_typed_fields (VObj Sample.standard)). reflexivity.
Defined.

Lemma accepted_has_typed_data_witness :
  Wearable.validate (VObj Sample.standard) = Returns true ∧
  ∃ m d replaces hides tags representations category,
    VObj Sample.standard = VObj m ∧ m !! "data" = Some (VObj d) ∧
    d !! "replaces" = Some (VArr replaces) ∧
    (∀ c, c ∈ replaces → generateValidator WearableCategory_schema c = true) ∧
    d !! "hides" = Some (VArr hides) ∧
    (∀ c, c ∈ hides → generateValidator WearableCategory_schema c = true) ∧
    d !! "tags" = Some (VArr tags) ∧
    (∀ t, t ∈ tags → ∃ s, t = VStr s ∧ s ≠ "") ∧
    d !! "representations" = Some (VArr representations) ∧
    (∀ r, r ∈ representations →
          generateValidator WearableRepresentation_schema r = true) ∧
    d !! "category" = Some category ∧
    generateValidator WearableCategory_schema category = true.
Proof.
  split; [reflexivity|].
  apply (accepted_has_typed_data (VObj Sample.standard)). reflexivity.
Defined.

Lemma accepted_has_typed_optionals_witness :
  Wearable.validate (VObj Sample.standard_with_content) = Returns true ∧
  ∃ m,
    VObj Sample.standard_with_content = VObj m ∧
    (∀ x, m !! "collectionAddress" = Some x →
          x = VUndefined ∨ x = VNull ∨ ∃ a, x = VStr a) ∧
    (∀ x, m !! "rarity" = Some x →
          x = VUndefined ∨ x = VNull ∨ Rarity.validate x = true) ∧
    (∀ x, m !! "metrics" = Some x →
          x = VUndefined ∨ x = VNull ∨ generateValidator Metrics_schema x = true) ∧
    (∀ x, m !! "merkleProof" = Some x →
          x = VUndefined ∨ x = VNull ∨ MerkleProof.validate x = true) ∧
    (∀ x, m !! "content" = Some x →
          x = VUndefined ∨ x = VNull ∨
          ∃ c, x = VObj c ∧ ∀ k y, c !! k = Some y → ∃ s, y = VStr s).
Proof.
  split; [reflexivity|].
  apply (accepted_has_typed_optionals (VObj Sample.standard_with_content)).
  reflexivity.
Defined.

Lemma guards_on_non_objects_witness :
  (∀ m, VNull ≠ VObj m) ∧
  Wearable.validate VNull = Returns false ∧
  isStandard VNull = Throws ∧ isThirdParty VNull = Throws.
Proof.
  assert (∀ m, VNull ≠ VObj m) as Hv by discriminate.
  split; [exact Hv|].
  destruct (guards_on_non_objects VNull Hv) as (Hval & Hthrow & _).
  split; [exact Hval|]. apply Hthrow. by right.
Defined.

(** A standard wearable that also has a well-formed Merkle proof. *)
Lemma both_or_neither_rejected_witness :
  locale_codes_are_strings = true ∧ merkle_lists_are_arrays = true ∧
  Wearable.validate
    (VObj (<["merkleProof" := Sample.merkleProof ["id"]]> Sample.standard))
    = Returns false.
Proof.
  split; [reflexivity|]. split; [reflexivity|].
  apply (both_or_neither_rejected
           (<["merkleProof" := Sample.merkleProof ["id"]]> Sample.standard));
    [reflexivity | reflexivity | |].
  - intros [_ [x Hx]]. vm_compute in Hx. discriminate.
  - left. split.
    + split; [reflexivity|]. exists "0xabc". split; [reflexivity | discriminate].
    + exists (list_to_map [("proof", VArr [VStr "0x01"; VStr "0x02"]);
                           ("hashingKeys", VArr [VStr "id"])]),
             [VStr "id"], [VStr "0x01"; VStr "0x02"].
      repeat split; try reflexivity; try discriminate.
      intros key Hkey.
      apply elem_of_cons in Hkey as [->|Hkey];
        [by exists "id"; split; [|eexists]|].
      by apply elem_of_nil in Hkey.
Defined.

End MoreOnSample.
